(** * The application reconciler of Ketch

    A shallow embedding of [internal/controllers/app_controller.go]: the
    health predicate [checkPodStatus], the inner [reconcile] pass with its
    canary step, the outer [Reconcile], the delete path [deleteChart] and the
    event loop of the rollout watcher [watchFunc].

    Conventions.  Go strings are [string]; Go's sized integers are [Z] with
    the wrap-around written out where the code computes with them; a Go
    [error] is [option error] ([None] is [nil]); a pointer that may be [nil]
    is an [option].  The cluster API, the chart applier and the other
    collaborators of the reconciler are records of functions that give the
    outcome of each call; everything the code does to the outside world is
    appended to a log of effects. *)

From Stdlib Require Import ZArith String List Bool Ascii DecimalString Lia.
Import ListNotations.

Open Scope string_scope.
Open Scope list_scope.
Open Scope Z_scope.

(** ** Go values *)

(** Instants ([time.Time]) and durations, both counted in nanoseconds. *)
Definition Time := Z.
Definition Duration := Z.

(** [strconv.Itoa] and the [%d] verb. *)
Definition itoa (z : Z) : string := NilZero.string_of_int (Z.to_int z).

(** The quotation mark, for format strings that contain one. *)
Definition dquote : string := String (ascii_of_nat 34) EmptyString.

(** The [%q] verb on a string without special characters. *)
Definition quoted (s : string) : string := dquote ++ s ++ dquote.

(** [strings.Join]. *)
Fixpoint Join (elems : list string) (sep : string) : string :=
  match elems with
  | [] => EmptyString
  | [s] => s
  | s :: rest => s ++ sep ++ Join rest sep
  end.

(** [int32] arithmetic: the value of a 32-bit two's complement word. *)
Definition wrap32 (z : Z) : Z := (z + 2 ^ 31) mod 2 ^ 32 - 2 ^ 31.
Definition sub32 (a b : Z) : Z := wrap32 (a - b).

(** A [map[string]string], in insertion order. *)
Definition StringMap := list (string * string).

(** ** Errors *)

(** [metav1.StatusReason] of an error answered by the cluster API. *)
Inductive StatusReason :=
| StatusReasonConflict
| StatusReasonNotFound
| StatusReasonUnknown.

(** The error values the controller sees: a plain message ([errors.New],
    [errors.Errorf], [fmt.Errorf] without [%w]), a message that wraps a cause
    ([fmt.Errorf] with [%w]), and a status error of the cluster API. *)
Inductive error :=
| errorString (s : string)
| wrapError (msg : string) (err : error)
| StatusError (reason : StatusReason) (msg : string).

(** The [Error()] method. *)
Definition Error (e : error) : string :=
  match e with
  | errorString s => s
  | wrapError msg _ => msg
  | StatusError _ msg => msg
  end.

Definition errors_New (s : string) : error := errorString s.

(** [fmt.Errorf(prefix + "%w", err)]. *)
Definition Errorf_w (prefix : string) (err : error) : error :=
  wrapError (prefix ++ Error err) err.

(** [errors.Unwrap]. *)
Definition Unwrap (e : error) : option error :=
  match e with
  | wrapError _ err => Some err
  | _ => None
  end.

(** [k8sErrors.IsConflict]: the error itself is a status error whose reason
    is Conflict.  The chain of causes is walked by [isConflictError], whose
    comment in the code says that the loop is needed for wrapped errors. *)
Definition IsConflict (e : error) : bool :=
  match e with
  | StatusError StatusReasonConflict _ => true
  | _ => false
  end.

Definition IsNotFound (e : error) : bool :=
  match e with
  | StatusError StatusReasonNotFound _ => true
  | _ => false
  end.

(** [client.IgnoreNotFound]. *)
Definition IgnoreNotFound (e : error) : option error :=
  if IsNotFound e then None else Some e.

(** The outcome of a call that returns [(T, error)]. *)
Inductive result (A : Type) :=
| Ok (a : A)
| Err (e : error).
Arguments Ok {A} a.
Arguments Err {A} e.

(** ** Objects of the cluster API *)

Module v1.

Definition PodPhase := string.
Definition PodPending : PodPhase := "Pending".
Definition PodRunning : PodPhase := "Running".
Definition PodSucceeded : PodPhase := "Succeeded".
Definition PodFailed : PodPhase := "Failed".

Definition ConditionStatus := string.
Definition ConditionTrue : ConditionStatus := "True".
Definition ConditionFalse : ConditionStatus := "False".
Definition ConditionUnknown : ConditionStatus := "Unknown".

Definition PodReady : string := "Ready".

Record PodCondition := {
  pc_Type : string;
  pc_Status : ConditionStatus
}.

Record PodStatus := {
  Phase : PodPhase;
  Message : string;
  Conditions : list PodCondition
}.

Record Pod := {
  pod_Name : string;
  pod_Status : PodStatus
}.

Record ObjectReference := {
  ref_Kind : string;
  ref_Name : string;
  ref_FieldPath : string
}.

Record EventSource := {
  Component : string;
  Host : string
}.

(** A cluster event, as delivered by the watch on events. *)
Record Event := {
  ev_Name : string;
  ev_Reason : string;
  ev_Message : string;
  InvolvedObject : ObjectReference;
  Source : EventSource
}.

Inductive EventType := EventTypeNormal | EventTypeWarning.

End v1.

Module appsv1.

Record DeploymentCondition := {
  dc_Type : string;
  dc_Reason : string
}.

Record DeploymentStatus := {
  ObservedGeneration : Z;
  Replicas : Z;
  UpdatedReplicas : Z;
  ReadyReplicas : Z;
  UnavailableReplicas : Z;
  Conditions : list DeploymentCondition
}.

Record Deployment := {
  Name : string;
  Generation : Z;
  spec_Replicas : option Z;
  Status : DeploymentStatus
}.

End appsv1.

Module v2beta1.

Record CrossVersionObjectReference := {
  Kind : string;
  Name : string;
  APIVersion : string
}.

(** Of a [HorizontalPodAutoscaler] only [Spec.ScaleTargetRef] is read. *)
Record HorizontalPodAutoscaler := {
  ScaleTargetRef : CrossVersionObjectReference
}.

End v2beta1.

(** [watch.Event]: [Object] is [Some] when it is a [*v1.Event]. *)
Record WatchEvent := {
  we_Object : option v1.Event
}.

(** ** Objects of Ketch

    The API package [internal/api/v1beta1] is not among the sources.  Its
    types are declared here with the fields that the controller reads and
    writes. *)

Module ketchv1.

Definition DeploymentVersion := Z.

Record ProcessSpec := {
  ps_Name : string;
  Units : option Z
}.

Record AppDeploymentSpec := {
  Version : DeploymentVersion;
  Processes : list ProcessSpec
}.

Record CanarySpec := {
  Active : bool;
  Started : option Time;
  StepTimeInteval : Duration;
  CurrentStep : Z
}.

(** The zero value [CanarySpec{}]. *)
Definition CanarySpec_zero : CanarySpec :=
  {| Active := false; Started := None; StepTimeInteval := 0; CurrentStep := 0 |}.

Record AppSpec := {
  spec_Framework : string;
  Deployments : list AppDeploymentSpec;
  DeploymentsCount : Z;
  Canary : CanarySpec
}.

Inductive ConditionType := Scheduled.

Record Condition := {
  cond_Type : ConditionType;
  cond_Status : v1.ConditionStatus;
  cond_Message : string;
  LastTransitionTime : Time
}.

Record AppStatus := {
  Conditions : list Condition;
  status_Framework : option v1.ObjectReference
}.

Record App := {
  Name : string;
  Namespace : string;
  Annotations : StringMap;
  Finalizers : list string;
  DeletionTimestamp : option Time;
  Spec : AppSpec;
  Status : AppStatus
}.

Record FrameworkSpec := {
  NamespaceName : string;
  AppQuotaLimit : option Z;
  IngressType : string
}.

Record FrameworkStatus := {
  status_Namespace : option v1.ObjectReference;
  Apps : list string
}.

Record Framework := {
  fw_Name : string;
  fw_Spec : FrameworkSpec;
  fw_Status : FrameworkStatus
}.

Record AppReconcileOutcome := {
  AppName : string;
  DeploymentCount : Z
}.

(** Keys of the annotations of a deployment event. *)
Inductive AnnotationKey :=
| DeploymentAnnotationAppName
| DeploymentAnnotationDevelopmentVersion
| DeploymentAnnotationEventName
| DeploymentAnnotationDescription
| DeploymentAnnotationProcessName
| DeploymentAnnotationInvolvedObjectName
| DeploymentAnnotationInvolvedObjectFieldPath
| DeploymentAnnotationSourceHost
| DeploymentAnnotationSourceComponent.

Record AppDeploymentEvent := {
  ade_Name : string;
  ade_DeploymentVersion : Z;
  ade_Reason : string;
  ade_Description : string;
  ade_ProcessName : string;
  ade_Annotations : list (AnnotationKey * string)
}.

(** Modelled from the spec: the reasons of the events are constants of the
    API package; an event carries a "reason code".  Each constant has its
    name as value. *)
Definition AppReconcileOutcomeReason : string := "AppReconcileOutcome".
Definition AppReconcileStarted : string := "AppReconcileStarted".
Definition AppReconcileComplete : string := "AppReconcileComplete".
Definition AppReconcileUpdate : string := "AppReconcileUpdate".
Definition AppReconcileError : string := "AppReconcileError".

(** Modelled from the spec: the constant is declared in the API package.
    "a single well-known string marks objects as owned by this
    controller". *)
Definition KetchFinalizer : string := "finalizer.theketch.io".

(** ** Record updates *)

Definition App_with_Spec (app : App) (s : AppSpec) : App :=
  {| Name := Name app; Namespace := Namespace app;
     Annotations := Annotations app; Finalizers := Finalizers app;
     DeletionTimestamp := DeletionTimestamp app;
     Spec := s; Status := Status app |}.

Definition App_with_Status (app : App) (s : AppStatus) : App :=
  {| Name := Name app; Namespace := Namespace app;
     Annotations := Annotations app; Finalizers := Finalizers app;
     DeletionTimestamp := DeletionTimestamp app;
     Spec := Spec app; Status := s |}.

Definition App_with_Finalizers (app : App) (fs : list string) : App :=
  {| Name := Name app; Namespace := Namespace app;
     Annotations := Annotations app; Finalizers := fs;
     DeletionTimestamp := DeletionTimestamp app;
     Spec := Spec app; Status := Status app |}.

Definition App_with_Canary (app : App) (c : CanarySpec) : App :=
  App_with_Spec app
    {| spec_Framework := spec_Framework (Spec app);
       Deployments := Deployments (Spec app);
       DeploymentsCount := DeploymentsCount (Spec app);
       Canary := c |}.

Definition App_with_Deployments (app : App) (ds : list AppDeploymentSpec) : App :=
  App_with_Spec app
    {| spec_Framework := spec_Framework (Spec app);
       Deployments := ds;
       DeploymentsCount := DeploymentsCount (Spec app);
       Canary := Canary (Spec app) |}.

Definition Framework_with_Apps (fw : Framework) (apps : list string) : Framework :=
  {| fw_Name := fw_Name fw; fw_Spec := fw_Spec fw;
     fw_Status := {| status_Namespace := status_Namespace (fw_Status fw);
                     Apps := apps |} |}.

(** ** Methods of the API package *)

(** Modelled from the spec: [Framework.HasApp] is declared in the API
    package, which is not among the sources.  A Framework has a "set of
    member application names"; an application "already is a member" when
    its name is in that set. *)
Definition HasApp (fw : Framework) (name : string) : bool :=
  existsb (String.eqb name) (Apps (fw_Status fw)).

(** Modelled from the spec: [App.SetCondition] is declared in the API
    package.  The status of an Application carries one condition: "on
    success, set condition=True", "on failure, set condition=False with
    the error message". *)
Definition SetCondition (app : App) (t : ConditionType)
    (status : v1.ConditionStatus) (message : string) (time : Time) : App :=
  App_with_Status app
    {| Conditions := [ {| cond_Type := t; cond_Status := status;
                          cond_Message := message;
                          LastTransitionTime := time |} ];
       status_Framework := status_Framework (Status app) |}.

(** Modelled from the spec: [App.DoRollback] is declared in the API
    package.  "perform a rollback: discard the canary deployment, reset the
    CanarySpec to inactive"; the canary deployment is "the second, i.e.
    newest" deployment. *)
Definition DoRollback (app : App) : App :=
  App_with_Canary
    (App_with_Deployments app
       (firstn 1 (Deployments (Spec app)) ++ skipn 2 (Deployments (Spec app))))
    CanarySpec_zero.

End ketchv1.

(** [controllerutil] on the finalizers of an application. *)
Definition ContainsFinalizer (app : ketchv1.App) (finalizer : string) : bool :=
  existsb (String.eqb finalizer) (ketchv1.Finalizers app).

Definition AddFinalizer (app : ketchv1.App) (finalizer : string) : ketchv1.App :=
  if ContainsFinalizer app finalizer then app
  else ketchv1.App_with_Finalizers app (ketchv1.Finalizers app ++ [finalizer]).

Definition RemoveFinalizer (app : ketchv1.App) (finalizer : string) : ketchv1.App :=
  ketchv1.App_with_Finalizers app
    (filter (fun f => negb (String.eqb f finalizer)) (ketchv1.Finalizers app)).

(** ** The outside world *)

(** One call of the event recorder ([Event], [Eventf], [AnnotatedEventf]) on
    the application named [re_App]. *)
Record RecordedEvent := {
  re_App : string;
  re_Annotations : list (ketchv1.AnnotationKey * string);
  re_Type : v1.EventType;
  re_Reason : string;
  re_Message : string
}.

(** [templates.Templates]: the yamls of a chart, by name. *)
Definition Templates := StringMap.

(** [chart.ApplicationChart], as the values it was built from. *)
Record ApplicationChart := {
  chart_App : ketchv1.App;
  chart_Framework : ketchv1.Framework;
  chart_Templates : Templates
}.

(** What the controller does to its collaborators, in the order of the calls.
    A call is logged whether or not it succeeds. *)
Inductive Effect :=
| RecorderEvent (e : RecordedEvent)
| LoggerError (err : error) (msg : string)
| ClientUpdate (app : ketchv1.App)
| ClientStatusUpdate (app : ketchv1.App)
| ClientStatusPatch (patched : ketchv1.Framework)
| HelmUpdateChart (chrt : ApplicationChart) (config : ketchv1.App)
| HelmDeleteChart (appName : string)
| AppDoCanary (now : Time) (hpaTargets : list string)
| WatchDeployEvents (deployment : string) (process : string)
| WatcherStop
| RegistryCleanup.

(** [client.Client]: the outcome of each call on the object store. *)
Record Client := {
  GetApp : string -> result ketchv1.App;
  GetFramework : string -> result ketchv1.Framework;
  ListFrameworks : result (list ketchv1.Framework);
  ListPods : StringMap -> result (list v1.Pod);
  ListHPAs : string -> result (list v2beta1.HorizontalPodAutoscaler);
  GetDeployment : string -> string -> result appsv1.Deployment;
  ListEvents : string -> string -> result (list v1.Event);
  Update : ketchv1.App -> option error;
  StatusUpdate : ketchv1.App -> option error;
  StatusPatch : ketchv1.Framework -> option error
}.

(** The [Helm] interface. *)
Record Helm := {
  UpdateChart : ApplicationChart -> ketchv1.App -> option error;
  DeleteChart : string -> option error
}.

(** The functions of other packages that the controller calls and that are
    not among the sources, with the constant [reconcileTimeout]. *)
Record Imports := {
  reconcileTimeout : Duration;
  (** [time.Now()] *)
  time_Now : Time;
  (** [reference.GetReference(r.Scheme, &framework)] *)
  GetReference : ketchv1.Framework -> result v1.ObjectReference;
  (** [chart.New(app, &framework, ...)]: whether the chart can be built *)
  chart_New : ketchv1.App -> ketchv1.Framework -> Templates -> option error;
  (** [app.DoCanary(now, logger, recorder, hpaTargets)]: the application
      after the step, the events it records and its error *)
  DoCanary : ketchv1.App -> Time -> list string ->
             ketchv1.App * list RecordedEvent * option error;
  (** [outcome.String(err)] of the API package; without an argument when
      [err] is [None] *)
  Outcome_String : ketchv1.AppReconcileOutcome -> option error -> string;
  (** [time.Duration.String], the [%v] verb on a duration *)
  Duration_String : Duration -> string;
  (** [uninstallHelmChart(group, annotations)] *)
  uninstallHelmChart : string -> StringMap -> bool;
  (** [r.watchDeployEvents(...)], which waits for the generation of the
      deployment and starts [watchFunc] on a goroutine of its own: here only
      the error it returns to [reconcile] *)
  watchDeployEvents : ketchv1.App -> string -> appsv1.Deployment ->
                      ketchv1.ProcessSpec -> option error
}.

(** [AppReconciler].  [TemplateReader] takes the ingress type, that is
    [r.TemplateReader.Get] after [templates.IngressConfigMapName]. *)
Record AppReconciler := {
  r_Client : Client;
  TemplateReader : string -> result Templates;
  HelmFactoryFn : string -> result Helm;
  Now : Time;
  Group : string
}.

(** ** Running a function body

    A statement either goes on to the next one with a value, returns from the
    function, or panics.  The state is threaded through. *)

Inductive control (R A : Type) :=
| Next (a : A)
| Return (r : R)
| Panic (msg : string).
Arguments Next {R A} a.
Arguments Return {R A} r.
Arguments Panic {R A} msg.

Definition M (S R A : Type) : Type := S -> control R A * S.

Definition ret {S R A} (a : A) : M S R A := fun s => (Next a, s).

Definition bind {S R A B} (m : M S R A) (k : A -> M S R B) : M S R B :=
  fun s =>
    match m s with
    | (Next a, s') => k a s'
    | (Return r, s') => (Return r, s')
    | (Panic msg, s') => (Panic msg, s')
    end.

Definition return_ {S R A} (r : R) : M S R A := fun s => (Return r, s).
Definition panic {S R A} (msg : string) : M S R A := fun s => (Panic msg, s).
Definition get {S R} : M S R S := fun s => (Next s, s).

Declare Scope go_scope.
Delimit Scope go_scope with go.
Notation "x <- m ;; k" := (bind m (fun x => k))
  (at level 100, m at next level, right associativity) : go_scope.
Notation "' pat <- m ;; k" := (bind m (fun x => match x with pat => k end))
  (at level 100, pat pattern, m at next level, right associativity) : go_scope.
Notation "m ;; k" := (bind m (fun _ => k))
  (at level 100, right associativity) : go_scope.

(** [when c m]: an [if] without [else]. *)
Definition when {S R} (c : bool) (m : M S R unit) : M S R unit :=
  if c then m else ret tt.

(** A [for ... range] loop whose body may return. *)
Fixpoint forRange {S R A} (xs : list A) (body : A -> M S R unit) : M S R unit :=
  match xs with
  | [] => ret tt
  | x :: rest => bind (body x) (fun _ => forRange rest body)
  end.

(** How a call ended. *)
Inductive outcome (R : Type) :=
| Returned (r : R)
| Panicked (msg : string).
Arguments Returned {R} r.
Arguments Panicked {R} msg.

(** Runs a body that ends in a [return]. *)
Definition run {S R} (m : M S R R) (s : S) : outcome R * S :=
  match m s with
  | (Next r, s') => (Returned r, s')
  | (Return r, s') => (Returned r, s')
  | (Panic msg, s') => (Panicked msg, s')
  end.

(** The state of a pass over one application: the object that [app] points
    to, and the log of effects. *)
Record Pass := {
  app : ketchv1.App;
  log : list Effect
}.

Definition getApp {R} : M Pass R ketchv1.App := fun s => (Next (app s), s).

Definition setApp {R} (a : ketchv1.App) : M Pass R unit :=
  fun s => (Next tt, {| app := a; log := log s |}).

Definition emit {R} (e : Effect) : M Pass R unit :=
  fun s => (Next tt, {| app := app s; log := log s ++ [e] |}).

Definition emitAll {R} (es : list Effect) : M Pass R unit :=
  fun s => (Next tt, {| app := app s; log := log s ++ es |}).

(** [orReturn (f ...) g]: [x, err := f(...); if err != nil { return g(err) }]. *)
Definition orReturn {S R A} (res : result A) (onErr : error -> R) : M S R A :=
  match res with
  | Ok a => ret a
  | Err e => return_ (onErr e)
  end.

(** [check (f ...) g]: [if err := f(...); err != nil { return g(err) }]. *)
Definition check {S R} (e : option error) (onErr : error -> R) : M S R unit :=
  match e with
  | None => ret tt
  | Some e => return_ (onErr e)
  end.

(** [xs[i]], which panics out of range. *)
Definition index {S R A} (xs : list A) (i : Z) : M S R A :=
  if (i <? 0) || (Z.of_nat (length xs) <=? i)
  then panic "index out of range"
  else match nth_error xs (Z.to_nat i) with
       | Some x => ret x
       | None => panic "index out of range"
       end.

(** Calls a function: its [return] gives the value of the call, its panic
    unwinds the caller. *)
Definition call {S R R'} (f : M S R' R') : M S R R' :=
  fun s =>
    match f s with
    | (Next r, s') => (Next r, s')
    | (Return r, s') => (Next r, s')
    | (Panic msg, s') => (Panic msg, s')
    end.

Definition len {A} (xs : list A) : Z := Z.of_nat (length xs).

(** ** The health predicate *)

(** The loop over the conditions of one pod. *)
Fixpoint checkConditions (conds : list v1.PodCondition) : option error :=
  match conds with
  | [] => None
  | c :: rest =>
      if negb (String.eqb (v1.pc_Status c) v1.ConditionTrue)
      then Some (errors_New "all pods are not in healthy state")
      else checkConditions rest
  end.

(** The loop over [podList.Items]. *)
Fixpoint checkPods (items : list v1.Pod) : option error :=
  match items with
  | [] => None
  | pod :: rest =>
      if String.eqb (v1.Phase (v1.pod_Status pod)) v1.PodSucceeded then None
      else if negb (String.eqb (v1.Phase (v1.pod_Status pod)) v1.PodRunning)
      then Some (errors_New "all pods are not running")
      else match checkConditions (v1.Conditions (v1.pod_Status pod)) with
           | Some e => Some e
           | None => checkPods rest
           end
  end.

(** The labels that select the pods of one deployment version of an
    application. *)
Definition podLabels (group appName : string)
    (depVersion : ketchv1.DeploymentVersion) : StringMap :=
  [ ((group ++ "/app-name")%string, appName);
    ((group ++ "/app-deployment-version")%string, itoa depVersion) ].

(** [checkPodStatus] checks whether all pods for a deployment are running or
    not. *)
Definition checkPodStatus (group : string) (c : option Client) (appName : string)
    (depVersion : ketchv1.DeploymentVersion) : option error :=
  match c with
  | None => Some (errors_New "client must be non-nil")
  | Some c =>
      if Nat.eqb (String.length appName) 0 || (depVersion <=? 0)
      then Some (errors_New "invalid app specifications")
      else match ListPods c (podLabels group appName depVersion) with
           | Err e => Some e
           | Ok items => checkPods items
           end
  end.

(** The two errors of [checkPodStatus] that say that the pods are not
    ready. *)
Definition isPodsNotReady (e : error) : bool :=
  match e with
  | errorString s =>
      String.eqb s "all pods are not running"
      || String.eqb s "all pods are not in healthy state"
  | _ => false
  end.

(** A pod in the running phase all of whose conditions are true. *)
Definition runningAndHealthy (pod : v1.Pod) : bool :=
  String.eqb (v1.Phase (v1.pod_Status pod)) v1.PodRunning
  && forallb (fun c => String.eqb (v1.pc_Status c) v1.ConditionTrue)
       (v1.Conditions (v1.pod_Status pod)).

Definition succeeded (pod : v1.Pod) : bool :=
  String.eqb (v1.Phase (v1.pod_Status pod)) v1.PodSucceeded.

(** The health predicate in the words of the specification: "success if any
    pod has succeeded OR if every pod is in the running phase AND all of its
    status conditions report healthy". *)
Definition spec_podsHealthy (items : list v1.Pod) : bool :=
  existsb succeeded items || forallb runningAndHealthy items.

(** ** Conflicts *)

Record appReconcileResult := {
  framework : option v1.ObjectReference;
  useTimeout : bool;
  err : option error
}.

(** The loop of [isConflictError], from one error down its chain of causes:
    [err = errors.Unwrap(err)] until [err] is nil or a conflict.  The
    recursion is on the wrapped error, which is what [Unwrap] gives. *)
Fixpoint conflictInChain (e : error) : bool :=
  if IsConflict e then true
  else match e with
       | wrapError _ cause => conflictInChain cause
       | _ => false
       end.

(** [isConflictError] returns true if AppReconciler was trying to update an
    App CR and got a conflict error. *)
Definition isConflictError (r : appReconcileResult) : bool :=
  match err r with
  | None => false
  | Some e => conflictInChain e
  end.

(** ** The inner pass *)

(** [targets[name]] in [hpaTargetMap]: the map is filled in the order of the
    list, so the last autoscaler with that target name is the entry. *)
Definition lookupTarget (items : list v2beta1.HorizontalPodAutoscaler)
    (name : string) : option v2beta1.CrossVersionObjectReference :=
  find (fun ref => String.eqb (v2beta1.Name ref) name)
       (rev (map v2beta1.ScaleTargetRef items)).

(** [m[k] = true] on a [map[string]bool] whose values are all true, kept as
    the list of its keys. *)
Definition setTrue (m : list string) (k : string) : list string :=
  if existsb (String.eqb k) m then m else m ++ [k].

(** [hpaTargetMap]: the processes whose deployment is the target of an
    autoscaler. *)
Definition hpaTargetMap (a : ketchv1.App)
    (hpaList : list v2beta1.HorizontalPodAutoscaler) : list string :=
  fold_left
    (fun hpaTargets deployment =>
       fold_left
         (fun hpaTargets process =>
            let deploymentName :=
              (ketchv1.Name a ++ "-" ++ ketchv1.ps_Name process ++ "-"
               ++ itoa (ketchv1.Version deployment))%string in
            match lookupTarget hpaList deploymentName with
            | Some details =>
                if String.eqb (v2beta1.Kind details) "Deployment"
                   && String.eqb (v2beta1.APIVersion details) "apps/v1"
                then setTrue hpaTargets (ketchv1.ps_Name process)
                else hpaTargets
            | None => hpaTargets
            end)
         (ketchv1.Processes deployment) hpaTargets)
    (ketchv1.Deployments (ketchv1.Spec a)) [].

(** [timeoutExpired]: check if timeout has expired.  [t] is a pointer; the
    call of [Add] through a nil pointer panics. *)
Definition timeoutExpired {S R} (I : Imports) (t : option Time) (now : Time)
    : M S R bool :=
  match t with
  | None => panic "invalid memory address or nil pointer dereference"
  | Some t => ret (t + reconcileTimeout I <? now)
  end.

(** An [appReconcileResult] with only [err] set. *)
Definition failed (e : error) : appReconcileResult :=
  {| framework := None; useTimeout := false; err := Some e |}.

(** The condition of the quota check of [reconcile]. *)
Definition quotaReached (fw : ketchv1.Framework) (appName : string) : bool :=
  negb (ketchv1.HasApp fw appName)
  && match ketchv1.AppQuotaLimit (ketchv1.fw_Spec fw) with
     | None => false
     | Some limit =>
         (limit <=? len (ketchv1.Apps (ketchv1.fw_Status fw)))
         && negb (limit =? -1)
     end.

(** [ctrl.Result]. *)
Record Result := {
  RequeueAfter : Duration
}.

Definition Result_zero : Result := {| RequeueAfter := 0 |}.

(** [IsZero] on a [*metav1.Time]: a nil pointer is the zero time. *)
Definition IsZero (t : option Time) : bool :=
  match t with
  | None => true
  | Some _ => false
  end.

(** The zero value [ketchv1.App{}]. *)
Definition App_zero : ketchv1.App :=
  {| ketchv1.Name := EmptyString;
     ketchv1.Namespace := EmptyString;
     ketchv1.Annotations := [];
     ketchv1.Finalizers := [];
     ketchv1.DeletionTimestamp := None;
     ketchv1.Spec :=
       {| ketchv1.spec_Framework := EmptyString;
          ketchv1.Deployments := [];
          ketchv1.DeploymentsCount := 0;
          ketchv1.Canary := ketchv1.CanarySpec_zero |};
     ketchv1.Status :=
       {| ketchv1.Conditions := []; ketchv1.status_Framework := None |} |}.

Section Reconciler.

Variable I : Imports.
Variable r : AppReconciler.

Local Open Scope go_scope.

Let c : Client := r_Client r.

(** What [reconcile] holds when it comes to the canary check: the framework,
    its reference, its namespace, the chart and the client of the chart
    applier. *)
Record Prepared := {
  p_framework : ketchv1.Framework;
  p_ref : v1.ObjectReference;
  p_namespace : v1.ObjectReference;
  p_chart : ApplicationChart;
  p_helm : Helm
}.

(** The first statements of [reconcile]: the framework is fetched and
    checked, with the templates of its ingress controller, up to the quota
    check. *)
Definition resolveFramework
    : M Pass appReconcileResult
        (ketchv1.Framework * v1.ObjectReference * v1.ObjectReference * Templates) :=
  a <- getApp ;;
  fw <- orReturn (GetFramework c (ketchv1.spec_Framework (ketchv1.Spec a)))
          (fun _ => failed (errors_New
             ("framework " ++ quoted (ketchv1.spec_Framework (ketchv1.Spec a))
              ++ " is not found"))) ;;
  ref <- orReturn (GetReference I fw) failed ;;
  namespace <-
    match ketchv1.status_Namespace (ketchv1.fw_Status fw) with
    | None =>
        return_ (failed (errors_New
          ("framework " ++ quoted (ketchv1.fw_Name fw)
           ++ " is not linked to a kubernetes namespace")))
    | Some ns => ret ns
    end ;;
  tpls <- orReturn (TemplateReader r (ketchv1.IngressType (ketchv1.fw_Spec fw)))
            (fun e => failed (Errorf_w
               "failed to read configmap with the app's chart templates: " e)) ;;
  when (quotaReached fw (ketchv1.Name a))
    (return_ (failed (errors_New "you have reached the limit of apps"))) ;;
  ret (fw, ref, namespace, tpls).

(** The statements of [reconcile] before the canary check. *)
Definition prepare : M Pass appReconcileResult Prepared :=
  '(fw, ref, namespace, tpls) <- resolveFramework ;;
  a <- getApp ;;
  check (chart_New I a fw tpls) failed ;;
  let appChrt := {| chart_App := a; chart_Framework := fw; chart_Templates := tpls |} in
  when (negb (ketchv1.HasApp fw (ketchv1.Name a)))
    (let patchedFramework :=
       ketchv1.Framework_with_Apps fw
         (ketchv1.Apps (ketchv1.fw_Status fw) ++ [ketchv1.Name a]) in
     emit (ClientStatusPatch patchedFramework) ;;
     check (StatusPatch c patchedFramework)
       (fun e => failed (Errorf_w "failed to update framework status: " e))) ;;
  let targetNamespace := v1.ref_Name namespace in
  helmClient <- orReturn (HelmFactoryFn r targetNamespace) failed ;;
  ret {| p_framework := fw; p_ref := ref; p_namespace := namespace;
         p_chart := appChrt; p_helm := helmClient |}.

(** The end of the canary step: the autoscalers are listed and the canary
    is advanced. *)
Definition advanceCanary (namespace : v1.ObjectReference)
    : M Pass appReconcileResult unit :=
  hpaList <- orReturn (ListHPAs c (v1.ref_Name namespace))
               (fun _ => failed (errors_New "failed to find HPAs")) ;;
  (* Once all pods are running then Perform canary deployment, do not scale
     pods for a process that is a HPA target. *)
  a <- getApp ;;
  emit (AppDoCanary (Now r) (hpaTargetMap a hpaList)) ;;
  let '(a', events, e) := DoCanary I a (Now r) (hpaTargetMap a hpaList) in
  setApp a' ;;
  emitAll (map RecorderEvent events) ;;
  check e (fun e => failed (Errorf_w "canary update failed: " e)) ;;
  emit (ClientUpdate a') ;;
  check (Update c a') (fun e => failed (Errorf_w "canary update failed: " e)).

(** The canary step of [reconcile], entered when [app.Spec.Canary.Active];
    [namespace] is [framework.Status.Namespace]. *)
Definition canaryStep (namespace : v1.ObjectReference)
    : M Pass appReconcileResult unit :=
  a <- getApp ;;
  (* ensures that the canary deployment exists *)
  when (len (ketchv1.Deployments (ketchv1.Spec a)) <=? 1)
    ((* reset canary specs *)
     setApp (ketchv1.App_with_Canary a ketchv1.CanarySpec_zero) ;;
     return_ (failed (errors_New "no canary deployment found"))) ;;
  canary <- index (ketchv1.Deployments (ketchv1.Spec a)) 1 ;;
  (* retry until all pods for canary deployment comes to running state. *)
  match checkPodStatus (Group r) (Some c) (ketchv1.Name a) (ketchv1.Version canary) with
  | Some e =>
      expired <- timeoutExpired I (ketchv1.Started (ketchv1.Canary (ketchv1.Spec a))) (Now r) ;;
      when (negb expired)
        (return_ {| framework := None; useTimeout := true;
                    err := Some (Errorf_w "canary update failed: " e) |}) ;;
      (* Do rollback if timeout expired *)
      setApp (ketchv1.DoRollback a) ;;
      emit (ClientUpdate (ketchv1.DoRollback a)) ;;
      check (Update c (ketchv1.DoRollback a))
        (fun e => failed (Errorf_w "failed to update app crd: " e))
  | None => ret tt
  end ;;
  advanceCanary namespace.

(** The loop of [reconcile] over the processes of the latest deployment. *)
Definition watchProcesses (fw : ketchv1.Framework)
    (latestDeployment : ketchv1.AppDeploymentSpec)
    : M Pass appReconcileResult unit :=
  forRange (ketchv1.Processes latestDeployment) (fun process =>
    a <- getApp ;;
    dep <- orReturn
             (GetDeployment c (ketchv1.NamespaceName (ketchv1.fw_Spec fw))
                (ketchv1.Name a ++ "-" ++ ketchv1.ps_Name process ++ "-"
                 ++ itoa (ketchv1.Version latestDeployment)))
             (fun e => failed (Errorf_w "failed to get deployment: " e)) ;;
    emit (WatchDeployEvents (appsv1.Name dep) (ketchv1.ps_Name process)) ;;
    check (watchDeployEvents I a (ketchv1.NamespaceName (ketchv1.fw_Spec fw)) dep process)
      (fun e => failed (Errorf_w "failed to get deploy events: " e))).

(** The statements of [reconcile] after the canary step: the chart is
    applied and the watchers are started. *)
Definition applyChart (p : Prepared) : M Pass appReconcileResult appReconcileResult :=
  a <- getApp ;;
  emit (HelmUpdateChart (p_chart p) a) ;;
  check (UpdateChart (p_helm p) (p_chart p) a)
    (fun e => failed (Errorf_w "failed to update helm chart: " e)) ;;
  if (0 <? len (ketchv1.Deployments (ketchv1.Spec a)))
     && negb (ketchv1.Active (ketchv1.Canary (ketchv1.Spec a)))
  then
    (* use latest deployment and watch events for each process *)
    latestDeployment <- index (ketchv1.Deployments (ketchv1.Spec a))
                          (len (ketchv1.Deployments (ketchv1.Spec a)) - 1) ;;
    watchProcesses (p_framework p) latestDeployment ;;
    return_ {| framework := Some (p_ref p); useTimeout := true; err := None |}
  else
    return_ {| framework := Some (p_ref p); useTimeout := false; err := None |}.

Definition reconcile : M Pass appReconcileResult appReconcileResult :=
  p <- prepare ;;
  a <- getApp ;;
  (* check for canary deployment *)
  when (ketchv1.Active (ketchv1.Canary (ketchv1.Spec a)))
    (canaryStep (p_namespace p)) ;;
  applyChart p.

(** The loop of [deleteChart] over the frameworks: the first framework
    that has the application is handled, then the loop is left. *)
Fixpoint deleteFromFramework (frameworks : list ketchv1.Framework)
    : M Pass (option error) unit :=
  match frameworks with
  | [] => ret tt
  | fw :: rest =>
      a <- getApp ;;
      if negb (ketchv1.HasApp fw (ketchv1.Name a))
      then deleteFromFramework rest
      else
        when (uninstallHelmChart I (Group r) (ketchv1.Annotations a))
          (helmClient <- orReturn
                           (HelmFactoryFn r (ketchv1.NamespaceName (ketchv1.fw_Spec fw)))
                           Some ;;
           emit (HelmDeleteChart (ketchv1.Name a)) ;;
           check (DeleteChart helmClient (ketchv1.Name a)) Some) ;;
        let patchedFramework :=
          ketchv1.Framework_with_Apps fw
            (filter (fun name => negb (String.eqb name (ketchv1.Name a)))
               (ketchv1.Apps (ketchv1.fw_Status fw))) in
        emit (ClientStatusPatch patchedFramework) ;;
        check (StatusPatch c patchedFramework) Some
  end.

Definition deleteChart : M Pass (option error) (option error) :=
  frameworks <- orReturn (ListFrameworks c) Some ;;
  deleteFromFramework frameworks ;;
  a <- getApp ;;
  setApp (RemoveFinalizer a ketchv1.KetchFinalizer) ;;
  emit (ClientUpdate (RemoveFinalizer a ketchv1.KetchFinalizer)) ;;
  check (Update c (RemoveFinalizer a ketchv1.KetchFinalizer)) Some ;;
  return_ None.

(** The outcome event of a pass. *)
Definition outcomeEvent (a : ketchv1.App) (type : v1.EventType)
    (e : option error) : Effect :=
  RecorderEvent
    {| re_App := ketchv1.Name a;
       re_Annotations := [];
       re_Type := type;
       re_Reason := ketchv1.AppReconcileOutcomeReason;
       re_Message :=
         Outcome_String I
           {| ketchv1.AppName := ketchv1.Name a;
              ketchv1.DeploymentCount := ketchv1.DeploymentsCount (ketchv1.Spec a) |}
           e |}.

(** The statements of [Reconcile] after the inner pass has given
    [scheduleResult]. *)
Definition report (scheduleResult : appReconcileResult)
    : M Pass (Result * option error) (Result * option error) :=
  when (isConflictError scheduleResult)
    ((* we don't want to create an event with this conflict error and show
        it to the user.  ketch will eventually reconcile the app. *)
     match err scheduleResult with
     | Some e => emit (LoggerError e "failed to reconcile app")
     | None => ret tt
     end ;;
     return_ (Result_zero, err scheduleResult)) ;;
  a <- getApp ;;
  match err scheduleResult with
  | Some e =>
      emit (outcomeEvent a v1.EventTypeWarning (Some e)) ;;
      setApp (ketchv1.SetCondition a ketchv1.Scheduled v1.ConditionFalse
                (Error e) (time_Now I))
  | None =>
      let a := ketchv1.App_with_Status a
                 {| ketchv1.Conditions := ketchv1.Conditions (ketchv1.Status a);
                    ketchv1.status_Framework := framework scheduleResult |} in
      emit (outcomeEvent a v1.EventTypeNormal None) ;;
      setApp (ketchv1.SetCondition a ketchv1.Scheduled v1.ConditionTrue
                EmptyString (time_Now I))
  end ;;
  a <- getApp ;;
  emit (ClientStatusUpdate a) ;;
  match StatusUpdate c a with
  | Some e =>
      if IsConflict e
      then
        (* we don't want to create an event with this conflict error and
           show it to the user.  ketch will eventually reconcile the app. *)
        emit (LoggerError e "failed to reconcile app status") ;;
        return_ (Result_zero, Some e)
      else
        emit (outcomeEvent a v1.EventTypeWarning (Some e)) ;;
        return_ (Result_zero, Some e)
  | None => ret tt
  end ;;
  (* use canary step interval as the timeout when canary is active *)
  let result :=
    if ketchv1.Active (ketchv1.Canary (ketchv1.Spec a))
    then {| RequeueAfter := ketchv1.StepTimeInteval (ketchv1.Canary (ketchv1.Spec a)) |}
    else Result_zero in
  let result :=
    if useTimeout scheduleResult
    then {| RequeueAfter := reconcileTimeout I |}
    else result in
  return_ (result, err scheduleResult).

(** [Reconcile], on the application named by the request.  The pass starts
    with [app] the zero value, which [r.Get] fills. *)
Definition Reconcile (req : string)
    : M Pass (Result * option error) (Result * option error) :=
  a <- orReturn (GetApp c req) (fun e => (Result_zero, IgnoreNotFound e)) ;;
  setApp a ;;
  when (negb (ContainsFinalizer a ketchv1.KetchFinalizer))
    (setApp (AddFinalizer a ketchv1.KetchFinalizer) ;;
     emit (ClientUpdate (AddFinalizer a ketchv1.KetchFinalizer)) ;;
     match Update c (AddFinalizer a ketchv1.KetchFinalizer) with
     | Some e =>
         emit (LoggerError e "failed to add ketch finalizer") ;;
         return_ (Result_zero, Some e)
     | None => ret tt
     end) ;;
  a <- getApp ;;
  when (negb (IsZero (ketchv1.DeletionTimestamp a)))
    (e <- call deleteChart ;;
     return_ (Result_zero, e)) ;;
  scheduleResult <- call reconcile ;;
  report scheduleResult.

End Reconciler.

(** ** The rollout watcher *)

Definition DeploymentProgressing : string := "Progressing".
Definition deadlineExeceededProgressCond : string := "ProgressDeadlineExceeded".

(** The version of the latest deployment, or zero. *)
Definition latestVersion (a : ketchv1.App) : Z :=
  match rev (ketchv1.Deployments (ketchv1.Spec a)) with
  | d :: _ => ketchv1.Version d
  | [] => 0
  end.

(** [newAppDeploymentEvent] creates a new AppDeploymentEvent, creating
    Annotations for use when emitting App Events. *)
Definition newAppDeploymentEvent (a : ketchv1.App) (reason desc processName : string)
    : ketchv1.AppDeploymentEvent :=
  let version := latestVersion a in
  {| ketchv1.ade_Name := ketchv1.Name a;
     ketchv1.ade_DeploymentVersion := version;
     ketchv1.ade_Reason := reason;
     ketchv1.ade_Description := desc;
     ketchv1.ade_ProcessName := processName;
     ketchv1.ade_Annotations :=
       [ (ketchv1.DeploymentAnnotationAppName, ketchv1.Name a);
         (ketchv1.DeploymentAnnotationDevelopmentVersion, itoa version);
         (ketchv1.DeploymentAnnotationEventName, reason);
         (ketchv1.DeploymentAnnotationDescription, desc);
         (ketchv1.DeploymentAnnotationProcessName, processName) ] |}.

(** [appDeploymentEventFromWatchEvent] converts a watch.Event into an
    AppDeploymentEvent; [None] is the nil it returns for another object. *)
Definition appDeploymentEventFromWatchEvent (watchEvent : WatchEvent)
    (a : ketchv1.App) (processName : string) : option ketchv1.AppDeploymentEvent :=
  match we_Object watchEvent with
  | None => None
  | Some event =>
      let version := latestVersion a in
      Some
        {| ketchv1.ade_Name := ketchv1.Name a;
           ketchv1.ade_DeploymentVersion := version;
           ketchv1.ade_Reason := v1.ev_Reason event;
           ketchv1.ade_Description := v1.ev_Message event;
           ketchv1.ade_ProcessName := processName;
           ketchv1.ade_Annotations :=
             [ (ketchv1.DeploymentAnnotationAppName, ketchv1.Name a);
               (ketchv1.DeploymentAnnotationDevelopmentVersion, itoa version);
               (ketchv1.DeploymentAnnotationEventName, v1.ev_Reason event);
               (ketchv1.DeploymentAnnotationDescription, v1.ev_Message event);
               (ketchv1.DeploymentAnnotationProcessName, processName);
               (ketchv1.DeploymentAnnotationInvolvedObjectName,
                v1.ref_Name (v1.InvolvedObject event));
               (ketchv1.DeploymentAnnotationInvolvedObjectFieldPath,
                v1.ref_FieldPath (v1.InvolvedObject event));
               (ketchv1.DeploymentAnnotationSourceHost, v1.Host (v1.Source event));
               (ketchv1.DeploymentAnnotationSourceComponent,
                v1.Component (v1.Source event)) ] |}
  end.

(** [isDeploymentEvent] returns true if the watch event is an Event type and
    matches the deployment name. *)
Definition isDeploymentEvent (msg : WatchEvent) (dep : appsv1.Deployment) : bool :=
  match we_Object msg with
  | None => false
  | Some evt => String.prefix (appsv1.Name dep) (v1.ev_Name evt)
  end.

(** [recorder.AnnotatedEventf(app, ev.Annotations, type, reason, ev.Description)]. *)
Definition AnnotatedEventf (a : ketchv1.App) (ev : ketchv1.AppDeploymentEvent)
    (type : v1.EventType) (reason : string) : Effect :=
  RecorderEvent
    {| re_App := ketchv1.Name a;
       re_Annotations := ketchv1.ade_Annotations ev;
       re_Type := type;
       re_Reason := reason;
       re_Message := ketchv1.ade_Description ev |}.

(** The pods that [createDeployTimeoutError] reports: those with a ready
    condition that is not true. *)
Definition notReady (pod : v1.Pod) : bool :=
  existsb (fun cond => String.eqb (v1.pc_Type cond) v1.PodReady
                       && negb (String.eqb (v1.pc_Status cond) v1.ConditionTrue))
          (v1.Conditions (v1.pod_Status pod)).

(** [newInvalidPodPhaseError] returns an error formatted with the phase of
    the pod and the latest event message. *)
Definition newInvalidPodPhaseError (cli : Client) (pod : v1.Pod) (namespace : string)
    : error :=
  let phaseWithMsg :=
    if Nat.eqb (String.length (v1.Message (v1.pod_Status pod))) 0
    then quoted (v1.Phase (v1.pod_Status pod))
    else (quoted (v1.Phase (v1.pod_Status pod)) ++ "("
          ++ quoted (v1.Message (v1.pod_Status pod)) ++ ")")%string in
  let retErr := errors_New ("invalid pod phase " ++ phaseWithMsg) in
  match ListEvents cli namespace (v1.pod_Name pod) with
  | Ok events =>
      match rev events with
      | lastEvt :: _ =>
          errors_New (Error retErr ++ " - last event: " ++ v1.ev_Message lastEvt)
      | [] => retErr
      end
  | Err _ => retErr
  end.

(** [createDeployTimeoutError] gets the pods that are not ready and returns
    the pod phase errors.  The pods are selected by the labels of
    [podLabels], which the code writes as a label selector. *)
Definition createDeployTimeoutError (I : Imports) (cli : Client) (a : ketchv1.App)
    (timeout : Duration) (namespace group label : string) : error :=
  let deploymentVersion := latestVersion a in
  match ListPods cli (podLabels group (ketchv1.Name a) deploymentVersion) with
  | Err e => e
  | Ok pods =>
      let podsForEvts := filter notReady pods in
      let messages :=
        map (fun pod => ("Pod " ++ v1.pod_Name pod ++ ": "
                         ++ Error (newInvalidPodPhaseError cli pod namespace))%string)
            podsForEvts in
      let msgErrorPart :=
        if 0 <? len messages then (": " ++ Join messages ", ")%string
        else EmptyString in
      errors_New ("timeout waiting " ++ label ++ " after " ++ Duration_String I timeout
                  ++ " waiting for units" ++ msgErrorPart)
  end.

(** The case of the [select] that is ready first in an iteration. *)
Inductive SelectCase :=
| PollTick                             (* <-time.After(100 * time.Millisecond) *)
| WatchCh (msg : option WatchEvent)    (* msg, isOpen := <-watchCh; [None]: closed *)
| HealthcheckTimeout (since : Duration)  (* <-healthcheckTimeout, with time.Since(now) *)
| OverallTimeout (since : Duration)    (* <-timeout, with time.Since(now) *)
| CtxDone (err : error).               (* <-ctx.Done(), with ctx.Err() *)

(** What one iteration of the event loop meets: the cluster as the calls of
    this iteration see it, and the case of the [select] that is ready. *)
Record Tick := {
  cluster : Client;
  ready : SelectCase
}.

(** The variables of [watchFunc] and the log of its effects.
    [healthcheckTimeout] says whether the channel of that name is non-nil. *)
Record Watch := {
  dep : appsv1.Deployment;
  oldUpdatedReplicas : Z;
  oldReadyUnits : Z;
  oldPendingTermination : Z;
  healthcheckTimeout : bool;
  wlog : list Effect
}.

(** How a run of [watchFunc] over finitely many iterations ends: it returned,
    it still waits in its loop, or the case given as ready cannot be (a nil
    channel never delivers). *)
Inductive watchExit :=
| Exited (err : option error)
| Waiting
| NotEnabled.

Inductive loopStep := Break | Continue.

Definition record {R} (e : Effect) : M Watch R unit :=
  fun w => (Next tt,
            {| dep := dep w;
               oldUpdatedReplicas := oldUpdatedReplicas w;
               oldReadyUnits := oldReadyUnits w;
               oldPendingTermination := oldPendingTermination w;
               healthcheckTimeout := healthcheckTimeout w;
               wlog := wlog w ++ [e] |}).

Definition setDep {R} (d : appsv1.Deployment) : M Watch R unit :=
  fun w => (Next tt,
            {| dep := d;
               oldUpdatedReplicas := oldUpdatedReplicas w;
               oldReadyUnits := oldReadyUnits w;
               oldPendingTermination := oldPendingTermination w;
               healthcheckTimeout := healthcheckTimeout w;
               wlog := wlog w |}).

Definition startHealthcheckTimeout {R} : M Watch R unit :=
  fun w => (Next tt,
            {| dep := dep w;
               oldUpdatedReplicas := oldUpdatedReplicas w;
               oldReadyUnits := oldReadyUnits w;
               oldPendingTermination := oldPendingTermination w;
               healthcheckTimeout := true;
               wlog := wlog w |}).

Definition setOld {R} (updated readyUnits pendingTermination : Z) : M Watch R unit :=
  fun w => (Next tt,
            {| dep := dep w;
               oldUpdatedReplicas := updated;
               oldReadyUnits := readyUnits;
               oldPendingTermination := pendingTermination;
               healthcheckTimeout := healthcheckTimeout w;
               wlog := wlog w |}).

(** The variables of [watchFunc] before the loop. *)
Definition watchStart (d : appsv1.Deployment) : Watch :=
  {| dep := d;
     oldUpdatedReplicas := -1;
     oldReadyUnits := -1;
     oldPendingTermination := -1;
     healthcheckTimeout := false;
     wlog := [] |}.

(** The completion test of the loop: [readyUnits == specReplicas &&
    dep.Status.Replicas == specReplicas]. *)
Definition rolloutComplete (specReplicas : Z) (status : appsv1.DeploymentStatus) : bool :=
  (sub32 (appsv1.UpdatedReplicas status) (appsv1.UnavailableReplicas status) =? specReplicas)
  && (appsv1.Replicas status =? specReplicas).

Section Watcher.

Variable I : Imports.
Variable r : AppReconciler.
Variable a : ketchv1.App.
Variable namespace : string.
Variable processName : string.
(** [app.GroupVersionKind().Group] *)
Variable gvkGroup : string.
Variable specReplicas : Z.

Local Open Scope go_scope.

(** The scan of the conditions of the deployment for an exceeded progress
    deadline. *)
Definition scanConditions (d : appsv1.Deployment) : M Watch watchExit unit :=
  forRange (appsv1.Conditions (appsv1.Status d)) (fun c =>
    when (String.eqb (appsv1.dc_Type c) DeploymentProgressing
          && String.eqb (appsv1.dc_Reason c) deadlineExeceededProgressCond)
      (record (AnnotatedEventf a
         (newAppDeploymentEvent a ketchv1.AppReconcileError
            ("deployment " ++ quoted (appsv1.Name d) ++ " exceeded its progress deadline")
            processName)
         v1.EventTypeWarning ketchv1.AppReconcileError) ;;
       return_ (Exited (Some (errors_New
         ("deployment " ++ quoted (appsv1.Name d) ++ " exceeded its progress deadline")))))).

(** The [select] of the loop.  Going on to the next statement is what the
    poll tick does; so does the [break] on a closed channel, which leaves
    the [select] only. *)
Definition selectCase (t : Tick) : M Watch watchExit unit :=
  w <- get ;;
  match ready t with
  | PollTick => ret tt
  | WatchCh None => ret tt
  | WatchCh (Some msg) =>
      when (isDeploymentEvent msg (dep w))
        match appDeploymentEventFromWatchEvent msg a processName with
        | Some appDeploymentEvent =>
            record (AnnotatedEventf a appDeploymentEvent
                      v1.EventTypeNormal ketchv1.AppReconcileUpdate)
        | None => panic "invalid memory address or nil pointer dereference"
        end
  | HealthcheckTimeout since =>
      if healthcheckTimeout w
      then
        let err := createDeployTimeoutError I (cluster t) a since namespace gvkGroup
                     "healthcheck" in
        record (AnnotatedEventf a
          (newAppDeploymentEvent a ketchv1.AppReconcileError
             ("error waiting for healthcheck: " ++ Error err) processName)
          v1.EventTypeWarning ketchv1.AppReconcileError) ;;
        return_ (Exited (Some err))
      else return_ NotEnabled
  | OverallTimeout since =>
      let err := createDeployTimeoutError I (cluster t) a since namespace gvkGroup
                   "full rollout" in
      record (AnnotatedEventf a
        (newAppDeploymentEvent a ketchv1.AppReconcileError
           ("deployment timeout: " ++ Error err) processName)
        v1.EventTypeWarning ketchv1.AppReconcileError) ;;
      return_ (Exited (Some err))
  | CtxDone err => return_ (Exited (Some err))
  end.

(** The first part of an iteration, up to the completion test: the scan of
    the conditions, the progress events and the start of the grace period
    of the health check. *)
Definition reportProgress (t : Tick) : M Watch watchExit unit :=
  w <- get ;;
  let status := appsv1.Status (dep w) in
  scanConditions (dep w) ;;
  when (negb (oldUpdatedReplicas w =? appsv1.UpdatedReplicas status))
    (record (AnnotatedEventf a
       (newAppDeploymentEvent a ketchv1.AppReconcileUpdate
          (itoa (appsv1.UpdatedReplicas status) ++ " of " ++ itoa specReplicas
           ++ " new units created") processName)
       v1.EventTypeNormal ketchv1.AppReconcileUpdate)) ;;
  when (negb (healthcheckTimeout w) && (appsv1.UpdatedReplicas status =? specReplicas))
    (latest <- index (ketchv1.Deployments (ketchv1.Spec a))
                 (len (ketchv1.Deployments (ketchv1.Spec a)) - 1) ;;
     match checkPodStatus (Group r) (Some (cluster t)) (ketchv1.Name a)
             (ketchv1.Version latest) with
     | None =>
         startHealthcheckTimeout ;;
         record (AnnotatedEventf a
           (newAppDeploymentEvent a ketchv1.AppReconcileUpdate
              ("waiting healthcheck on " ++ itoa specReplicas ++ " created units")
              processName)
           v1.EventTypeNormal ketchv1.AppReconcileUpdate)
     | Some _ => ret tt
     end) ;;
  let readyUnits :=
    sub32 (appsv1.UpdatedReplicas status) (appsv1.UnavailableReplicas status) in
  when (negb (oldReadyUnits w =? readyUnits) && (0 <=? readyUnits))
    (record (AnnotatedEventf a
       (newAppDeploymentEvent a ketchv1.AppReconcileUpdate
          (itoa readyUnits ++ " of " ++ itoa specReplicas ++ " new units ready")
          processName)
       v1.EventTypeNormal ketchv1.AppReconcileUpdate)) ;;
  let pendingTermination :=
    sub32 (appsv1.Replicas status) (appsv1.UpdatedReplicas status) in
  when (negb (oldPendingTermination w =? pendingTermination) && (0 <? pendingTermination))
    (record (AnnotatedEventf a
       (newAppDeploymentEvent a ketchv1.AppReconcileUpdate
          (itoa pendingTermination ++ " old units pending termination") processName)
       v1.EventTypeNormal ketchv1.AppReconcileUpdate)) ;;
  setOld (appsv1.UpdatedReplicas status) readyUnits pendingTermination.

(** The last part of an iteration: the deployment is fetched again. *)
Definition refetch (t : Tick) : M Watch watchExit unit :=
  w <- get ;;
  match GetDeployment (cluster t) namespace (appsv1.Name (dep w)) with
  | Err err =>
      record (AnnotatedEventf a
        (newAppDeploymentEvent a ketchv1.AppReconcileError
           ("error getting deployments: " ++ Error err) processName)
        v1.EventTypeWarning ketchv1.AppReconcileError) ;;
      return_ (Exited (Some err))
  | Ok d => setDep d
  end.

(** One iteration of the [for] loop of [watchFunc]. *)
Definition iteration (t : Tick) : M Watch watchExit loopStep :=
  reportProgress t ;;
  w <- get ;;
  if rolloutComplete specReplicas (appsv1.Status (dep w))
  then ret Break
  else
    selectCase t ;;
    refetch t ;;
    ret Continue.

(** The [for] loop, over the iterations that the run is given. *)
Fixpoint eventLoop (ticks : list Tick) : M Watch watchExit unit :=
  match ticks with
  | [] => return_ Waiting
  | t :: rest =>
      step <- iteration t ;;
      match step with
      | Break => ret tt
      | Continue => eventLoop rest
      end
  end.

(** The body of [watchFunc], without the deferred call. *)
Definition watchBody (ticks : list Tick) : M Watch watchExit watchExit :=
  eventLoop ticks ;;
  w <- get ;;
  let outcome :=
    {| ketchv1.AppName := ketchv1.Name a;
       ketchv1.DeploymentCount := appsv1.ReadyReplicas (appsv1.Status (dep w)) |} in
  record (AnnotatedEventf a
    (newAppDeploymentEvent a ketchv1.AppReconcileComplete
       (Outcome_String I outcome None) processName)
    v1.EventTypeNormal ketchv1.AppReconcileComplete) ;;
  (* stopFunc() *)
  record WatcherStop ;;
  return_ (Exited None).

(** The body with the deferred [cleanup()], which runs when the function
    returns or panics. *)
Definition watchRun (d : appsv1.Deployment) (ticks : list Tick)
    : outcome watchExit * list Effect :=
  let '(o, w) := run (watchBody ticks) (watchStart d) in
  match o with
  | Returned Waiting => (o, wlog w)
  | Returned NotEnabled => (o, wlog w)
  | _ => (o, wlog w ++ [RegistryCleanup])
  end.

End Watcher.

(** [specReplicas] of [watchFunc]: [*dep.Spec.Replicas], or zero for nil. *)
Definition specReplicasOf (d : appsv1.Deployment) : Z :=
  match appsv1.spec_Replicas d with
  | Some n => n
  | None => 0
  end.

(** [watchFunc] on the deployment [d], over the iterations [ticks]. *)
Definition watchFunc (I : Imports) (r : AppReconciler) (a : ketchv1.App)
    (namespace processName gvkGroup : string)
    (d : appsv1.Deployment) (ticks : list Tick) : outcome watchExit * list Effect :=
  watchRun I r a namespace processName gvkGroup (specReplicasOf d) d ticks.

(** ** Clusters and applications for examples *)

Definition notFound : error := StatusError StatusReasonNotFound "not found".
Definition conflict : error :=
  StatusError StatusReasonConflict "the object has been modified".
Definition unavailable : error := StatusError StatusReasonUnknown "unavailable".

(** A cluster without objects, on which every write succeeds. *)
Definition emptyCluster : Client :=
  {| GetApp := fun _ => Err notFound;
     GetFramework := fun _ => Err notFound;
     ListFrameworks := Ok [];
     ListPods := fun _ => Ok [];
     ListHPAs := fun _ => Ok [];
     GetDeployment := fun _ _ => Err notFound;
     ListEvents := fun _ _ => Ok [];
     Update := fun _ => None;
     StatusUpdate := fun _ => None;
     StatusPatch := fun _ => None |}.

(** The cluster [c] with the pods [pods] under every selector. *)
Definition withPods (c : Client) (pods : list v1.Pod) : Client :=
  {| GetApp := GetApp c;
     GetFramework := GetFramework c;
     ListFrameworks := ListFrameworks c;
     ListPods := fun _ => Ok pods;
     ListHPAs := ListHPAs c;
     GetDeployment := GetDeployment c;
     ListEvents := ListEvents c;
     Update := Update c;
     StatusUpdate := StatusUpdate c;
     StatusPatch := StatusPatch c |}.

Definition pod (name : string) (phase : v1.PodPhase) (ready : v1.ConditionStatus)
    : v1.Pod :=
  {| v1.pod_Name := name;
     v1.pod_Status :=
       {| v1.Phase := phase;
          v1.Message := EmptyString;
          v1.Conditions := [ {| v1.pc_Type := v1.PodReady; v1.pc_Status := ready |} ] |} |}.

(** The loop of [checkPodStatus] reaches a succeeded pod: all the pods before
    it are running with their conditions true. *)
Definition reachesSucceeded (items : list v1.Pod) : Prop :=
  exists before p after,
    items = before ++ p :: after
    /\ forallb runningAndHealthy before = true
    /\ succeeded p = true.

(** The functions of the other packages, for examples: every call succeeds
    and [DoCanary] leaves the application as it is. *)
Definition exampleImports : Imports :=
  {| reconcileTimeout := 600000000000;
     time_Now := 0;
     GetReference := fun fw =>
       Ok {| v1.ref_Kind := "Framework"; v1.ref_Name := ketchv1.fw_Name fw;
             v1.ref_FieldPath := EmptyString |};
     chart_New := fun _ _ _ => None;
     DoCanary := fun a _ _ => (a, [], None);
     Outcome_String := fun o e =>
       match e with
       | None => ("app " ++ ketchv1.AppName o ++ " reconcile success")%string
       | Some e => ("app " ++ ketchv1.AppName o ++ " reconcile fail: " ++ Error e)%string
       end;
     Duration_String := itoa;
     uninstallHelmChart := fun _ _ => true;
     watchDeployEvents := fun _ _ _ _ => None |}.

(** A chart applier on which every call succeeds. *)
Definition exampleHelm : Helm :=
  {| UpdateChart := fun _ _ => None; DeleteChart := fun _ => None |}.

Definition reconcilerOn (c : Client) : AppReconciler :=
  {| r_Client := c;
     TemplateReader := fun _ => Ok [];
     HelmFactoryFn := fun _ => Ok exampleHelm;
     Now := 0;
     Group := "theketch.io" |}.

(** The application "sample" of the framework "demo", with the deployments
    [ds] and the canary [canary]. *)
Definition sampleApp (ds : list ketchv1.AppDeploymentSpec) (canary : ketchv1.CanarySpec)
    : ketchv1.App :=
  {| ketchv1.Name := "sample";
     ketchv1.Namespace := "default";
     ketchv1.Annotations := [];
     ketchv1.Finalizers := [ketchv1.KetchFinalizer];
     ketchv1.DeletionTimestamp := None;
     ketchv1.Spec :=
       {| ketchv1.spec_Framework := "demo";
          ketchv1.Deployments := ds;
          ketchv1.DeploymentsCount := len ds;
          ketchv1.Canary := canary |};
     ketchv1.Status :=
       {| ketchv1.Conditions := []; ketchv1.status_Framework := None |} |}.

(** The deployment version [v] with one process "web" of three units. *)
Definition webDeployment (v : Z) : ketchv1.AppDeploymentSpec :=
  {| ketchv1.Version := v;
     ketchv1.Processes := [ {| ketchv1.ps_Name := "web"; ketchv1.Units := Some 3 |} ] |}.

(** The workload "sample-web-1" with [replicas] desired replicas and the
    counts [total], [updated] and [unavailable] in its status. *)
Definition workload (replicas total updated unavailable : Z) : appsv1.Deployment :=
  {| appsv1.Name := "sample-web-1";
     appsv1.Generation := 1;
     appsv1.spec_Replicas := Some replicas;
     appsv1.Status :=
       {| appsv1.ObservedGeneration := 1;
          appsv1.Replicas := total;
          appsv1.UpdatedReplicas := updated;
          appsv1.ReadyReplicas := updated - unavailable;
          appsv1.UnavailableReplicas := unavailable;
          appsv1.Conditions := [] |} |}.

(** The cluster [c] in which every deployment is [d]. *)
Definition withDeployment (c : Client) (d : appsv1.Deployment) : Client :=
  {| GetApp := GetApp c;
     GetFramework := GetFramework c;
     ListFrameworks := ListFrameworks c;
     ListPods := ListPods c;
     ListHPAs := ListHPAs c;
     GetDeployment := fun _ _ => Ok d;
     ListEvents := ListEvents c;
     Update := Update c;
     StatusUpdate := StatusUpdate c;
     StatusPatch := StatusPatch c |}.

(** ** Predicates on the steps of the watcher *)

Definition isRecorderEvent (e : Effect) : bool :=
  match e with
  | RecorderEvent _ => true
  | _ => false
  end.

(** A step of the watcher that adds only events of the recorder to the log,
    however it ends, and that returns from the function only with a value
    in [P]. *)
Definition recordsOnly {R A} (P : R -> Prop) (m : M Watch R A) : Prop :=
  forall w,
    (exists evs, wlog (snd (m w)) = wlog w ++ evs
                 /\ forallb isRecorderEvent evs = true)
    /\ (forall v, fst (m w) = Return v -> P v).

(** The ways in which the event loop is left other than by its [break]. *)
Definition notComplete (x : watchExit) : Prop := x <> Exited None.

(** The deployment has a condition that reports an exceeded progress
    deadline. *)
Definition deadlineExceeded (d : appsv1.Deployment) : bool :=
  existsb (fun c => String.eqb (appsv1.dc_Type c) DeploymentProgressing
                    && String.eqb (appsv1.dc_Reason c) deadlineExeceededProgressCond)
          (appsv1.Conditions (appsv1.Status d)).

(** A run of the watcher of the process "web" of "sample". *)
Definition exampleWatch (d : appsv1.Deployment) (ticks : list Tick)
    : outcome watchExit * list Effect :=
  watchFunc exampleImports (reconcilerOn emptyCluster)
    (sampleApp [webDeployment 1] ketchv1.CanarySpec_zero)
    "ketch-demo" "web" "theketch.io" d ticks.

Definition tick (c : Client) (s : SelectCase) : Tick :=
  {| cluster := c; ready := s |}.

(** The framework "demo", linked to the namespace "ketch-demo", with the
    quota [limit] and the member applications [apps]. *)
Definition demoFramework (limit : option Z) (apps : list string) : ketchv1.Framework :=
  {| ketchv1.fw_Name := "demo";
     ketchv1.fw_Spec :=
       {| ketchv1.NamespaceName := "ketch-demo";
          ketchv1.AppQuotaLimit := limit;
          ketchv1.IngressType := "traefik" |};
     ketchv1.fw_Status :=
       {| ketchv1.status_Namespace :=
            Some {| v1.ref_Kind := "Namespace"; v1.ref_Name := "ketch-demo";
                    v1.ref_FieldPath := EmptyString |};
          ketchv1.Apps := apps |} |}.

(** The cluster [c] with the framework [fw]. *)
Definition withFramework (c : Client) (fw : ketchv1.Framework) : Client :=
  {| GetApp := GetApp c;
     GetFramework := fun name =>
       if String.eqb name (ketchv1.fw_Name fw) then Ok fw else GetFramework c name;
     ListFrameworks :=
       match ListFrameworks c with
       | Ok fws => Ok (fws ++ [fw])
       | Err e => Err e
       end;
     ListPods := ListPods c;
     ListHPAs := ListHPAs c;
     GetDeployment := GetDeployment c;
     ListEvents := ListEvents c;
     Update := Update c;
     StatusUpdate := StatusUpdate c;
     StatusPatch := StatusPatch c |}.

(** The cluster [c] with the application [a]. *)
Definition withApp (c : Client) (a : ketchv1.App) : Client :=
  {| GetApp := fun name =>
       if String.eqb name (ketchv1.Name a) then Ok a else GetApp c name;
     GetFramework := GetFramework c;
     ListFrameworks := ListFrameworks c;
     ListPods := ListPods c;
     ListHPAs := ListHPAs c;
     GetDeployment := GetDeployment c;
     ListEvents := ListEvents c;
     Update := Update c;
     StatusUpdate := StatusUpdate c;
     StatusPatch := StatusPatch c |}.

(** The cluster [c] on which the update of the status of an application
    fails with [e]. *)
Definition failingStatusUpdate (c : Client) (e : error) : Client :=
  {| GetApp := GetApp c;
     GetFramework := GetFramework c;
     ListFrameworks := ListFrameworks c;
     ListPods := ListPods c;
     ListHPAs := ListHPAs c;
     GetDeployment := GetDeployment c;
     ListEvents := ListEvents c;
     Update := Update c;
     StatusUpdate := fun _ => Some e;
     StatusPatch := StatusPatch c |}.

(** The pass over the application [a], before any effect. *)
Definition passOn (a : ketchv1.App) : Pass := {| app := a; log := [] |}.

(** ** Classes of errors and of effects *)



Definition isStatusPatch (e : Effect) : bool :=
  match e with
  | ClientStatusPatch _ => true
  | _ => false
  end.


(** A canary that is active since [started]. *)
Definition activeCanary (started : Time) : ketchv1.CanarySpec :=
  {| ketchv1.Active := true;
     ketchv1.Started := Some started;
     ketchv1.StepTimeInteval := 5;
     ketchv1.CurrentStep := 1 |}.

(** The reconciler on [c] at the instant [now]. *)
Definition reconcilerAt (c : Client) (now : Time) : AppReconciler :=
  {| r_Client := c;
     TemplateReader := fun _ => Ok [];
     HelmFactoryFn := fun _ => Ok exampleHelm;
     Now := now;
     Group := "theketch.io" |}.

(** What [reconcile] holds before the canary check for the application [a]
    of the framework [fw], on the collaborators of the examples. *)
Definition preparedFor (a : ketchv1.App) (fw : ketchv1.Framework) : Prepared :=
  {| p_framework := fw;
     p_ref := {| v1.ref_Kind := "Framework"; v1.ref_Name := ketchv1.fw_Name fw;
                 v1.ref_FieldPath := EmptyString |};
     p_namespace := {| v1.ref_Kind := "Namespace"; v1.ref_Name := "ketch-demo";
                       v1.ref_FieldPath := EmptyString |};
     p_chart := {| chart_App := a; chart_Framework := fw; chart_Templates := [] |};
     p_helm := exampleHelm |}.


(** A chart applier whose uninstall fails with [e]. *)
Definition failingUninstall (e : error) : Helm :=
  {| UpdateChart := fun _ _ => None; DeleteChart := fun _ => Some e |}.

(** The reconciler on [c] with the chart applier [h]. *)
Definition reconcilerWith (c : Client) (h : Helm) : AppReconciler :=
  {| r_Client := c;
     TemplateReader := fun _ => Ok [];
     HelmFactoryFn := fun _ => Ok h;
     Now := 0;
     Group := "theketch.io" |}.

(** The application [a] marked for deletion at [t]. *)
Definition deleted (a : ketchv1.App) (t : Time) : ketchv1.App :=
  {| ketchv1.Name := ketchv1.Name a;
     ketchv1.Namespace := ketchv1.Namespace a;
     ketchv1.Annotations := ketchv1.Annotations a;
     ketchv1.Finalizers := ketchv1.Finalizers a;
     ketchv1.DeletionTimestamp := Some t;
     ketchv1.Spec := ketchv1.Spec a;
     ketchv1.Status := ketchv1.Status a |}.

(** ** Further notions *)

(** The chain of an error: the error, what [errors.Unwrap] gives for it, and
    so on. *)
Fixpoint chain (e : error) : list error :=
  e :: match e with
       | wrapError _ cause => chain cause
       | _ => []
       end.

(** The process [process] of the deployment [deployment] of [a] is the
    target of an autoscaler of [hpaList]: the entry of the map of targets
    under the name of its workload is a Deployment of apps/v1. *)
Definition hpaTargeted (a : ketchv1.App)
    (hpaList : list v2beta1.HorizontalPodAutoscaler)
    (deployment : ketchv1.AppDeploymentSpec) (process : ketchv1.ProcessSpec) : bool :=
  match lookupTarget hpaList
          (ketchv1.Name a ++ "-" ++ ketchv1.ps_Name process ++ "-"
           ++ itoa (ketchv1.Version deployment)) with
  | Some details =>
      String.eqb (v2beta1.Kind details) "Deployment"
      && String.eqb (v2beta1.APIVersion details) "apps/v1"
  | None => false
  end.

(** A result of the inner pass that reports a failure: it has an error and
    no reference of a framework. *)
Definition isFailure (res : appReconcileResult) : Prop :=
  err res <> None /\ framework res = None.

Definition isHelmUpdateChart (e : Effect) : bool :=
  match e with
  | HelmUpdateChart _ _ => true
  | _ => false
  end.

(** The effects of the delete path. *)
Definition isDeleteEffect (e : Effect) : bool :=
  match e with
  | HelmDeleteChart _ => true
  | ClientStatusPatch _ => true
  | ClientUpdate _ => true
  | _ => false
  end.

Definition isHelmDeleteChart (e : Effect) : bool :=
  match e with
  | HelmDeleteChart _ => true
  | _ => false
  end.

(** The framework [fw] without the application [name] among its members, as
    [deleteChart] patches it. *)
Definition withoutMember (fw : ketchv1.Framework) (name : string) : ketchv1.Framework :=
  ketchv1.Framework_with_Apps fw
    (filter (fun n => negb (String.eqb n name)) (ketchv1.Apps (ketchv1.fw_Status fw))).

(** A step that does not panic. *)
Definition noPanic {S R A} (m : M S R A) : Prop :=
  forall s msg, fst (m s) <> Panic msg.

(** The error of the watcher for an exceeded progress deadline. *)
Definition deadlineError (d : appsv1.Deployment) : error :=
  errors_New ("deployment " ++ quoted (appsv1.Name d) ++ " exceeded its progress deadline").

(** ** The start of a watcher

    [watchDeployEvents], which [reconcile] calls for each process: it opens
    the watch on the events, waits until the generation of the deployment is
    observed, registers the watcher and starts [watchFunc]. *)

(** What [watchDeployEvents] does, in the order of the calls. *)
Inductive SetupEffect :=
| SetupEvent (e : RecordedEvent)
| ReplaceAndCancelPrevious (key : string)  (* r.CancelMap.replaceAndCancelPrevious *)
| GoWatchFunc (d : appsv1.Deployment) (processName : string).  (* go r.watchFunc *)

(** The case of the [select] of the waiting loop that is ready first. *)
Inductive WaitCase :=
| WaitTick                 (* <-time.After(100 * time.Millisecond) *)
| WaitTimeout              (* <-timeout *)
| WaitDone (err : error).  (* <-ctx.Done(), with ctx.Err() *)

(** What one turn of the waiting loop meets: the outcome of the fetch of the
    deployment and the case of the [select]. *)
Record Poll := {
  poll_Get : result appsv1.Deployment;
  poll_ready : WaitCase
}.

(** The variable [dep] of [watchDeployEvents] and the log of its effects. *)
Record Setup := {
  s_dep : appsv1.Deployment;
  s_log : list SetupEffect
}.

(** How a run of [watchDeployEvents] over finitely many turns ends. *)
Inductive setupExit :=
| SetupReturned (err : option error)
| SetupWaiting.

Definition setupEmit {R} (e : SetupEffect) : M Setup R unit :=
  fun s => (Next tt, {| s_dep := s_dep s; s_log := s_log s ++ [e] |}).

Definition setupDep {R} (d : appsv1.Deployment) : M Setup R unit :=
  fun s => (Next tt, {| s_dep := d; s_log := s_log s |}).

(** [recorder.Event(app, v1.EventTypeWarning, reason, message)]. *)
Definition warningEvent (a : ketchv1.App) (reason message : string) : SetupEffect :=
  SetupEvent {| re_App := ketchv1.Name a; re_Annotations := [];
                re_Type := v1.EventTypeWarning; re_Reason := reason;
                re_Message := message |}.

(** The event that says that the units of a process are updated. *)
Definition startedEvent (a : ketchv1.App) (process : ketchv1.ProcessSpec) : SetupEffect :=
  let ev := newAppDeploymentEvent a ketchv1.AppReconcileStarted
              ("Updating units [" ++ ketchv1.ps_Name process ++ "]")
              (ketchv1.ps_Name process) in
  SetupEvent {| re_App := ketchv1.Name a;
                re_Annotations := ketchv1.ade_Annotations ev;
                re_Type := v1.EventTypeNormal;
                re_Reason := ketchv1.ade_Reason ev;
                re_Message := ketchv1.ade_Description ev |}.

Section Setup.

Variable a : ketchv1.App.

Local Open Scope go_scope.

(** The loop [for dep.Status.ObservedGeneration < dep.Generation], over the
    turns that the run is given. *)
Fixpoint waitGeneration (polls : list Poll) : M Setup setupExit unit :=
  st <- get ;;
  if appsv1.ObservedGeneration (appsv1.Status (s_dep st)) <? appsv1.Generation (s_dep st)
  then
    match polls with
    | [] => return_ SetupWaiting
    | p :: rest =>
        match poll_Get p with
        | Err err =>
            setupEmit (warningEvent a ketchv1.AppReconcileError
                         ("error getting deployments: " ++ Error err)) ;;
            return_ (SetupReturned (Some err))
        | Ok d =>
            setupDep d ;;
            match poll_ready p with
            | WaitTick => waitGeneration rest
            | WaitTimeout =>
                setupEmit (warningEvent a ketchv1.AppReconcileError
                             "timeout waiting for deployment generation to update") ;;
                return_ (SetupReturned (Some (errors_New
                  "timeout waiting for deployment generation to update")))
            | WaitDone err => return_ (SetupReturned (Some err))
            end
        end
    end
  else ret tt.

(** [watchDeployEvents]: [newForConfig] and [watch] are the errors of
    [kubernetes.NewForConfig] and of the opening of the watch on the
    events. *)
Definition watchDeployEventsRun (dep : appsv1.Deployment) (process : ketchv1.ProcessSpec)
    (newForConfig watch : option error) (polls : list Poll)
    : outcome setupExit * list SetupEffect :=
  let '(o, st) :=
    run (check newForConfig (fun e => SetupReturned (Some e)) ;;
         check watch (fun e => SetupReturned (Some e)) ;;
         (* wait for Deployment Generation *)
         waitGeneration polls ;;
         st <- get ;;
         (* assign current cancelFunc and cancel the previous one *)
         setupEmit (ReplaceAndCancelPrevious (appsv1.Name (s_dep st))) ;;
         setupEmit (startedEvent a process) ;;
         setupEmit (GoWatchFunc (s_dep st) (ketchv1.ps_Name process)) ;;
         return_ (SetupReturned None))
        {| s_dep := dep; s_log := [] |} in
  (o, s_log st).

End Setup.

Definition isSetupEvent (e : SetupEffect) : bool :=
  match e with
  | SetupEvent _ => true
  | _ => false
  end.

(** The deployment [d] with the generation [generation], of which
    [observed] is observed. *)
Definition atGeneration (d : appsv1.Deployment) (generation observed : Z)
    : appsv1.Deployment :=
  {| appsv1.Name := appsv1.Name d;
     appsv1.Generation := generation;
     appsv1.spec_Replicas := appsv1.spec_Replicas d;
     appsv1.Status :=
       {| appsv1.ObservedGeneration := observed;
          appsv1.Replicas := appsv1.Replicas (appsv1.Status d);
          appsv1.UpdatedReplicas := appsv1.UpdatedReplicas (appsv1.Status d);
          appsv1.ReadyReplicas := appsv1.ReadyReplicas (appsv1.Status d);
          appsv1.UnavailableReplicas := appsv1.UnavailableReplicas (appsv1.Status d);
          appsv1.Conditions := appsv1.Conditions (appsv1.Status d) |} |}.

(** ** More objects for examples *)

(** An autoscaler of the workload [name], of the kind [kind]. *)
Definition autoscaler (kind name : string) : v2beta1.HorizontalPodAutoscaler :=
  {| v2beta1.ScaleTargetRef :=
       {| v2beta1.Kind := kind; v2beta1.Name := name; v2beta1.APIVersion := "apps/v1" |} |}.

(** The collaborators of the examples with a policy that keeps the chart. *)
Definition keepChartImports : Imports :=
  {| reconcileTimeout := reconcileTimeout exampleImports;
     time_Now := time_Now exampleImports;
     GetReference := GetReference exampleImports;
     chart_New := chart_New exampleImports;
     DoCanary := DoCanary exampleImports;
     Outcome_String := Outcome_String exampleImports;
     Duration_String := Duration_String exampleImports;
     uninstallHelmChart := fun _ _ => false;
     watchDeployEvents := watchDeployEvents exampleImports |}.

(** The workload [d] with a condition that reports an exceeded progress
    deadline. *)
Definition pastDeadline (d : appsv1.Deployment) : appsv1.Deployment :=
  {| appsv1.Name := appsv1.Name d;
     appsv1.Generation := appsv1.Generation d;
     appsv1.spec_Replicas := appsv1.spec_Replicas d;
     appsv1.Status :=
       {| appsv1.ObservedGeneration := appsv1.ObservedGeneration (appsv1.Status d);
          appsv1.Replicas := appsv1.Replicas (appsv1.Status d);
          appsv1.UpdatedReplicas := appsv1.UpdatedReplicas (appsv1.Status d);
          appsv1.ReadyReplicas := appsv1.ReadyReplicas (appsv1.Status d);
          appsv1.UnavailableReplicas := appsv1.UnavailableReplicas (appsv1.Status d);
          appsv1.Conditions :=
            [ {| appsv1.dc_Type := DeploymentProgressing;
                 appsv1.dc_Reason := deadlineExeceededProgressCond |} ] |} |}.

(** * Properties *)

(** ** The health predicate *)

Lemma checkConditions_None (conds : list v1.PodCondition) :
  checkConditions conds = None <->
  forallb (fun c => String.eqb (v1.pc_Status c) v1.ConditionTrue) conds = true.
Proof.
  induction conds as [|c rest IH]; simpl.
  - tauto.
  - destruct (String.eqb (v1.pc_Status c) v1.ConditionTrue); simpl.
    + exact IH.
    + split; discriminate.
Qed.

Lemma checkConditions_error (conds : list v1.PodCondition) (e : error) :
  checkConditions conds = Some e ->
  e = errors_New "all pods are not in healthy state".
Proof.
  induction conds as [|c rest IH]; simpl.
  - discriminate.
  - destruct (String.eqb (v1.pc_Status c) v1.ConditionTrue); simpl.
    + exact IH.
    + congruence.
Qed.

(** A pod is passed over by the loop exactly when it is running with all
    its conditions true. *)
Lemma checkPods_cons (p : v1.Pod) (rest : list v1.Pod) :
  checkPods (p :: rest) =
  if succeeded p then None
  else if runningAndHealthy p then checkPods rest
  else if String.eqb (v1.Phase (v1.pod_Status p)) v1.PodRunning
       then Some (errors_New "all pods are not in healthy state")
       else Some (errors_New "all pods are not running").
Proof.
  unfold succeeded, runningAndHealthy. simpl.
  destruct (String.eqb (v1.Phase (v1.pod_Status p)) v1.PodSucceeded); [reflexivity|].
  destruct (String.eqb (v1.Phase (v1.pod_Status p)) v1.PodRunning); simpl; [|reflexivity].
  destruct (checkConditions (v1.Conditions (v1.pod_Status p))) as [e|] eqn:Hc.
  - apply checkConditions_error in Hc as He. subst e.
    destruct (forallb _ _) eqn:Hf; [|reflexivity].
    apply checkConditions_None in Hf. congruence.
  - apply checkConditions_None in Hc. rewrite Hc. reflexivity.
Qed.

Lemma checkPods_None (items : list v1.Pod) :
  checkPods items = None <->
  reachesSucceeded items \/ forallb runningAndHealthy items = true.
Proof.
  induction items as [|p rest IH].
  - simpl. split; auto.
  - rewrite checkPods_cons.
    destruct (succeeded p) eqn:Hs.
    + split; [intros _|reflexivity].
      left. exists [], p, rest. simpl. auto.
    + destruct (runningAndHealthy p) eqn:Hr.
      * rewrite IH. simpl. rewrite Hr. simpl.
        split; intros [H|H]; auto; left.
        -- destruct H as (before & q & after & -> & Hb & Hq).
           exists (p :: before), q, after. simpl. rewrite Hr. auto.
        -- destruct H as (before & q & after & Heq & Hb & Hq).
           destruct before as [|p' before]; simpl in Heq; inversion Heq; subst.
           ++ congruence.
           ++ simpl in Hb. apply andb_true_iff in Hb as [_ Hb].
              exists before, q, after. auto.
      * split.
        -- destruct (String.eqb _ _); discriminate.
        -- intros [H|H].
           ++ destruct H as (before & q & after & Heq & Hb & Hq).
              destruct before as [|p' before]; simpl in Heq; inversion Heq; subst.
              ** congruence.
              ** simpl in Hb. rewrite Hr in Hb. discriminate.
           ++ simpl in H. rewrite Hr in H. discriminate.
Qed.

Lemma checkPods_error (items : list v1.Pod) (e : error) :
  checkPods items = Some e -> isPodsNotReady e = true.
Proof.
  induction items as [|p rest IH].
  - discriminate.
  - rewrite checkPods_cons.
    destruct (succeeded p); [discriminate|].
    destruct (runningAndHealthy p); [exact IH|].
    destruct (String.eqb _ _); intros [= <-]; reflexivity.
Qed.

(** With a client, a name and a positive version, [checkPodStatus] is the
    loop over the pods that the client lists. *)
Lemma checkPodStatus_lists (group : string) (c : Client) (appName : string)
    (depVersion : ketchv1.DeploymentVersion) (items : list v1.Pod) :
  appName <> EmptyString ->
  0 < depVersion ->
  ListPods c (podLabels group appName depVersion) = Ok items ->
  checkPodStatus group (Some c) appName depVersion = checkPods items.
Proof.
  intros Hname Hver Hlist. unfold checkPodStatus.
  destruct appName as [|ch appName]; [congruence|]. simpl.
  destruct (depVersion <=? 0) eqn:Hle; [lia|].
  rewrite Hlist. reflexivity.
Qed.

Example checkPodStatus_running :
  checkPodStatus "theketch.io"
    (Some (withPods emptyCluster [pod "web-1" v1.PodRunning v1.ConditionTrue]))
    "sample" 1 = None.
Proof. reflexivity. Qed.

Example checkPodStatus_not_ready :
  checkPodStatus "theketch.io"
    (Some (withPods emptyCluster [pod "web-1" v1.PodRunning v1.ConditionFalse]))
    "sample" 1 = Some (errors_New "all pods are not in healthy state").
Proof. reflexivity. Qed.

Example checkPodStatus_invalid :
  checkPodStatus "theketch.io" (Some emptyCluster) "sample" 0
  = Some (errors_New "invalid app specifications").
Proof. reflexivity. Qed.

(** C1, as amended.  For a call of [checkPodStatus] with a client, a
    non-empty application name and a positive version, on the pods that the
    client lists: the result is success exactly when the loop, going through
    the pods in the order of the list, reaches a pod in the Succeeded phase
    before any pod that is not running or has a condition that is not True,
    or when every pod is running with all its conditions True; every other
    result is one of the two errors that say that the pods are not ready.  The
    conditions of the Succeeded pod and the pods after it do not matter. *)
Theorem checkPodStatus_success_iff (group : string) (c : Client) (appName : string)
    (depVersion : ketchv1.DeploymentVersion) (items : list v1.Pod) :
  appName <> EmptyString ->
  0 < depVersion ->
  ListPods c (podLabels group appName depVersion) = Ok items ->
  (checkPodStatus group (Some c) appName depVersion = None <->
   reachesSucceeded items \/ forallb runningAndHealthy items = true)
  /\ (forall e, checkPodStatus group (Some c) appName depVersion = Some e ->
                isPodsNotReady e = true).
Proof.
  intros Hname Hver Hlist.
  rewrite (checkPodStatus_lists group c appName depVersion items Hname Hver Hlist).
  split.
  - apply checkPods_None.
  - apply checkPods_error.
Qed.

(** The amended C1 on three pods: a running one, a succeeded one whose
    condition is False, and a pending one. *)
Lemma checkPodStatus_success_iff_witness :
  let items := [ pod "web-1" v1.PodRunning v1.ConditionTrue;
                 pod "job-1" v1.PodSucceeded v1.ConditionFalse;
                 pod "web-2" v1.PodPending v1.ConditionFalse ] in
  let c := withPods emptyCluster items in
  "sample" <> EmptyString
  /\ 0 < 1
  /\ ListPods c (podLabels "theketch.io" "sample" 1) = Ok items
  /\ (checkPodStatus "theketch.io" (Some c) "sample" 1 = None <->
      reachesSucceeded items \/ forallb runningAndHealthy items = true)
  /\ (forall e, checkPodStatus "theketch.io" (Some c) "sample" 1 = Some e ->
                isPodsNotReady e = true).
Proof.
  intros items c.
  split; [discriminate|].
  split; [lia|].
  split; [reflexivity|].
  apply (checkPodStatus_success_iff "theketch.io" c "sample" 1 items);
    [discriminate | lia | reflexivity].
Defined.

(** C1 as stated fails: a pod in the Succeeded phase that comes after a
    pending pod does not make the check succeed, although "any pod has
    succeeded". *)
Lemma checkPodStatus_succeeded_after_pending :
  let items := [ pod "web-1" v1.PodPending v1.ConditionFalse;
                 pod "job-1" v1.PodSucceeded v1.ConditionTrue ] in
  spec_podsHealthy items = true
  /\ checkPodStatus "theketch.io" (Some (withPods emptyCluster items)) "sample" 1
     = Some (errors_New "all pods are not running").
Proof. split; reflexivity. Qed.

(** C9.  With valid arguments and no pod under the selector of the
    application and the version, [checkPodStatus] returns nil. *)
Theorem checkPodStatus_no_pods (group : string) (c : Client) (appName : string)
    (depVersion : ketchv1.DeploymentVersion) :
  appName <> EmptyString ->
  0 < depVersion ->
  ListPods c (podLabels group appName depVersion) = Ok [] ->
  checkPodStatus group (Some c) appName depVersion = None.
Proof.
  intros Hname Hver Hlist.
  rewrite (checkPodStatus_lists group c appName depVersion [] Hname Hver Hlist).
  reflexivity.
Qed.

Lemma checkPodStatus_no_pods_witness :
  "sample" <> EmptyString
  /\ 0 < 1
  /\ ListPods emptyCluster (podLabels "theketch.io" "sample" 1) = Ok []
  /\ checkPodStatus "theketch.io" (Some emptyCluster) "sample" 1 = None.
Proof.
  split; [discriminate|].
  split; [lia|].
  split; [reflexivity|].
  apply (checkPodStatus_no_pods "theketch.io" emptyCluster "sample" 1);
    [discriminate | lia | reflexivity].
Defined.

(** ** The steps of a function body *)

Lemma run_bind_Next {S R A B} (m : M S R A) (k : A -> M S R B) (s s' : S) (x : A) :
  m s = (Next x, s') -> bind m k s = k x s'.
Proof. intros H. unfold bind. rewrite H. reflexivity. Qed.

Lemma run_bind_Return {S R A B} (m : M S R A) (k : A -> M S R B) (s s' : S) (v : R) :
  m s = (Return v, s') -> bind m k s = (Return v, s').
Proof. intros H. unfold bind. rewrite H. reflexivity. Qed.

Lemma run_bind_Panic {S R A B} (m : M S R A) (k : A -> M S R B) (s s' : S) msg :
  m s = (Panic msg, s') -> bind m k s = (Panic msg, s').
Proof. intros H. unfold bind. rewrite H. reflexivity. Qed.

(** ** The log of the watcher *)

Section RecordsOnly.

Context {R : Type}.
Variable P : R -> Prop.

Lemma recordsOnly_pure {A} (m : M Watch R A) :
  (forall w, wlog (snd (m w)) = wlog w) ->
  (forall w v, fst (m w) = Return v -> P v) ->
  recordsOnly P m.
Proof.
  intros Hl Hr w. split; [|apply Hr].
  exists []. rewrite Hl, app_nil_r. auto.
Qed.

Lemma recordsOnly_ret {A} (x : A) : recordsOnly P (ret x : M Watch R A).
Proof. apply recordsOnly_pure; [reflexivity | discriminate]. Qed.

Lemma recordsOnly_return {A} (v : R) :
  P v -> recordsOnly P (return_ v : M Watch R A).
Proof. intros Hv. apply recordsOnly_pure; [reflexivity | intros w v' [= <-]; exact Hv]. Qed.

Lemma recordsOnly_panic {A} msg : recordsOnly P (panic msg : M Watch R A).
Proof. apply recordsOnly_pure; [reflexivity | discriminate]. Qed.

Lemma recordsOnly_get : recordsOnly P (get : M Watch R Watch).
Proof. apply recordsOnly_pure; [reflexivity | discriminate]. Qed.

Lemma recordsOnly_setDep d : recordsOnly P (setDep d : M Watch R unit).
Proof. apply recordsOnly_pure; [reflexivity | discriminate]. Qed.

Lemma recordsOnly_setOld u q p : recordsOnly P (setOld u q p : M Watch R unit).
Proof. apply recordsOnly_pure; [reflexivity | discriminate]. Qed.

Lemma recordsOnly_startHealthcheckTimeout :
  recordsOnly P (startHealthcheckTimeout : M Watch R unit).
Proof. apply recordsOnly_pure; [reflexivity | discriminate]. Qed.

Lemma recordsOnly_record (e : Effect) :
  isRecorderEvent e = true -> recordsOnly P (record e : M Watch R unit).
Proof.
  intros He w. split; [|discriminate].
  exists [e]. simpl. rewrite He. auto.
Qed.

Lemma recordsOnly_bind {A B} (m : M Watch R A) (k : A -> M Watch R B) :
  recordsOnly P m -> (forall x, recordsOnly P (k x)) -> recordsOnly P (bind m k).
Proof.
  intros Hm Hk w. unfold bind.
  destruct (Hm w) as ((evs1 & E1 & F1) & R1).
  destruct (m w) as [[x|v|msg] w1]; simpl in E1, R1.
  - destruct (Hk x w1) as ((evs2 & E2 & F2) & R2). split; [|exact R2].
    exists (evs1 ++ evs2). rewrite E2, E1, app_assoc, forallb_app, F1, F2. auto.
  - split; [exists evs1; auto|]. simpl. intros v' [= <-]. auto.
  - split; [exists evs1; auto|]. discriminate.
Qed.

Lemma recordsOnly_when (c : bool) (m : M Watch R unit) :
  recordsOnly P m -> recordsOnly P (when c m).
Proof. intros Hm. destruct c; simpl; [exact Hm | apply recordsOnly_ret]. Qed.

Lemma recordsOnly_forRange {A} (xs : list A) (body : A -> M Watch R unit) :
  (forall x, recordsOnly P (body x)) -> recordsOnly P (forRange xs body).
Proof.
  intros Hb. induction xs as [|x rest IH]; simpl.
  - apply recordsOnly_ret.
  - apply recordsOnly_bind; auto.
Qed.

Lemma recordsOnly_index {A} (xs : list A) (i : Z) :
  recordsOnly P (index xs i : M Watch R A).
Proof.
  unfold index. destruct (_ || _).
  - apply recordsOnly_panic.
  - destruct (nth_error _ _); [apply recordsOnly_ret | apply recordsOnly_panic].
Qed.

End RecordsOnly.

Create HintDb watcher.

#[local] Hint Resolve recordsOnly_ret recordsOnly_panic
  recordsOnly_get recordsOnly_setDep recordsOnly_setOld
  recordsOnly_startHealthcheckTimeout recordsOnly_index : watcher.

(** Goes through a body statement by statement. *)
Ltac records_step :=
  match goal with
  | |- recordsOnly _ (bind _ _) => apply recordsOnly_bind; [|intros]
  | |- recordsOnly _ (record _) => apply recordsOnly_record; reflexivity
  | |- recordsOnly _ (return_ _) => apply recordsOnly_return; discriminate
  | |- recordsOnly _ (when _ _) => apply recordsOnly_when
  | |- recordsOnly _ (forRange _ _) => apply recordsOnly_forRange; intros
  | |- recordsOnly _ (match ?x with _ => _ end) => destruct x
  | |- recordsOnly _ (if ?x then _ else _) => destruct x
  | |- recordsOnly _ _ => solve [auto with watcher]
  end.

Section WatcherLog.

Variable I : Imports.
Variable r : AppReconciler.
Variable a : ketchv1.App.
Variables namespace processName gvkGroup : string.
Variable specReplicas : Z.

Lemma recordsOnly_scanConditions d :
  recordsOnly notComplete (scanConditions a processName d).
Proof. unfold scanConditions. repeat records_step. Qed.

Lemma recordsOnly_selectCase t :
  recordsOnly notComplete (selectCase I a namespace processName gvkGroup t).
Proof. unfold selectCase. repeat records_step. Qed.

Lemma recordsOnly_reportProgress t :
  recordsOnly notComplete (reportProgress r a processName specReplicas t).
Proof.
  unfold reportProgress.
  repeat (records_step || apply recordsOnly_scanConditions).
Qed.

Lemma recordsOnly_refetch t :
  recordsOnly notComplete (refetch a namespace processName t).
Proof. unfold refetch. repeat records_step. Qed.

Lemma recordsOnly_iteration t :
  recordsOnly notComplete
    (iteration I r a namespace processName gvkGroup specReplicas t).
Proof.
  unfold iteration.
  repeat (records_step || apply recordsOnly_reportProgress
          || apply recordsOnly_selectCase || apply recordsOnly_refetch).
Qed.

Lemma recordsOnly_eventLoop ticks :
  recordsOnly notComplete
    (eventLoop I r a namespace processName gvkGroup specReplicas ticks).
Proof.
  induction ticks as [|t rest IH]; simpl.
  - apply recordsOnly_return. discriminate.
  - apply recordsOnly_bind; [apply recordsOnly_iteration|].
    intros [|]; [apply recordsOnly_ret | exact IH].
Qed.

End WatcherLog.

(** C10.  In every run of [watchFunc], the stop function of the event
    stream is called only when the run returns nil, that is when the rollout
    is complete, and then just before the deferred cleanup; when the run
    returns an error or panics, the log holds events of the recorder and then
    the cleanup of the registry, and the stream is not stopped; while the
    loop still waits neither has been called. *)
Theorem watchFunc_stops_only_when_complete (I : Imports) (r : AppReconciler)
    (a : ketchv1.App) (namespace processName gvkGroup : string)
    (d : appsv1.Deployment) (ticks : list Tick) :
  let (o, l) := watchFunc I r a namespace processName gvkGroup d ticks in
  match o with
  | Returned (Exited None) =>
      exists evs, l = evs ++ [WatcherStop; RegistryCleanup]
                  /\ forallb isRecorderEvent evs = true
  | Returned (Exited (Some _)) | Panicked _ =>
      exists evs, l = evs ++ [RegistryCleanup]
                  /\ forallb isRecorderEvent evs = true
  | Returned Waiting | Returned NotEnabled =>
      forallb isRecorderEvent l = true
  end.
Proof.
  unfold watchFunc, watchRun, run, watchBody.
  set (w0 := watchStart d).
  unfold bind at 1.
  destruct (recordsOnly_eventLoop I r a namespace processName gvkGroup
              (specReplicasOf d) ticks w0) as ((evs & E & F) & Hret).
  destruct (eventLoop I r a namespace processName gvkGroup (specReplicasOf d) ticks w0)
    as [[[]|v|msg] w1]; simpl in E, Hret |- *.
  - exists (evs ++ [AnnotatedEventf a
                      (newAppDeploymentEvent a ketchv1.AppReconcileComplete
                         (Outcome_String I
                            {| ketchv1.AppName := ketchv1.Name a;
                               ketchv1.DeploymentCount :=
                                 appsv1.ReadyReplicas (appsv1.Status (dep w1)) |} None)
                         processName)
                      v1.EventTypeNormal ketchv1.AppReconcileComplete]).
    rewrite E, forallb_app, F. simpl.
    rewrite <- !app_assoc. simpl. auto.
  - specialize (Hret v eq_refl).
    destruct v as [[e|]| |]; rewrite E.
    + exists evs. auto.
    + exfalso. apply Hret. reflexivity.
    + exact F.
    + exact F.
  - exists evs. rewrite E. auto.
Qed.

(** ** The completion of a rollout *)

Lemma index_last {S R A} (xs : list A) :
  xs <> [] ->
  exists x, forall s : S, (index xs (len xs - 1) : M S R A) s = (Next x, s).
Proof.
  intros Hne. unfold index, len.
  destruct xs as [|x0 rest]; [congruence|].
  assert (Hlen : (0 < length (x0 :: rest))%nat) by (simpl; lia).
  replace ((Z.of_nat (length (x0 :: rest)) - 1 <? 0)
           || (Z.of_nat (length (x0 :: rest)) <=? Z.of_nat (length (x0 :: rest)) - 1))
    with false by (symmetry; apply orb_false_iff; split; lia).
  destruct (nth_error (x0 :: rest) (Z.to_nat (Z.of_nat (length (x0 :: rest)) - 1)))
    as [x|] eqn:Hn.
  - exists x. reflexivity.
  - apply nth_error_None in Hn. lia.
Qed.



Section WatcherSteps.

#[local] Arguments checkPodStatus : simpl never.

Variable I : Imports.
Variable r : AppReconciler.
Variable a : ketchv1.App.
Variables namespace processName gvkGroup : string.
Variable specReplicas : Z.

Lemma scanConditions_passes (d : appsv1.Deployment) (w : Watch) :
  deadlineExceeded d = false ->
  scanConditions a processName d w = (Next tt, w).
Proof.
  unfold deadlineExceeded, scanConditions.
  induction (appsv1.Conditions (appsv1.Status d)) as [|c rest IH]; simpl.
  - reflexivity.
  - intros H. apply orb_false_iff in H as [Hc Hrest].
    rewrite Hc. simpl. unfold bind at 1. simpl. auto.
Qed.

Lemma scanConditions_deadline (d : appsv1.Deployment) (w : Watch) :
  deadlineExceeded d = true ->
  exists w', scanConditions a processName d w
             = (Return (Exited (Some (errors_New
                  ("deployment " ++ quoted (appsv1.Name d)
                   ++ " exceeded its progress deadline")))), w').
Proof.
  unfold deadlineExceeded, scanConditions.
  induction (appsv1.Conditions (appsv1.Status d)) as [|c rest IH]; simpl.
  - discriminate.
  - destruct (String.eqb (appsv1.dc_Type c) DeploymentProgressing
              && String.eqb (appsv1.dc_Reason c) deadlineExeceededProgressCond); simpl.
    + intros _. eexists. reflexivity.
    + intros H. unfold bind at 1. simpl. auto.
Qed.

(** Without an exceeded deadline and with a deployment in the application,
    the first part of an iteration goes on to the completion test, with the
    same deployment. *)
Lemma reportProgress_passes (t : Tick) (w : Watch) :
  ketchv1.Deployments (ketchv1.Spec a) <> [] ->
  deadlineExceeded (dep w) = false ->
  exists w', reportProgress r a processName specReplicas t w = (Next tt, w')
             /\ dep w' = dep w.
Proof.
  intros Hds Hdl. unfold reportProgress.
  unfold bind at 1. simpl.
  rewrite (run_bind_Next _ _ w w tt (scanConditions_passes (dep w) w Hdl)).
  destruct (@index_last Watch watchExit _ (ketchv1.Deployments (ketchv1.Spec a)) Hds)
    as (latest & Hlatest).
  unfold when, bind, record, setOld, startHealthcheckTimeout, ret.
  destruct (negb (oldUpdatedReplicas w =? _)); simpl;
    destruct (negb (healthcheckTimeout w) && _); simpl;
    rewrite ?Hlatest;
    try (destruct (checkPodStatus _ _ _ _); simpl);
    destruct (negb (oldReadyUnits w =? _) && _); simpl;
    destruct (negb (oldPendingTermination w =? _) && _); simpl;
    eexists; split; reflexivity.
Qed.

(** Whatever the first part of an iteration does, it keeps the deployment. *)
Lemma reportProgress_dep (t : Tick) (w : Watch) :
  forall w', reportProgress r a processName specReplicas t w = (Next tt, w') ->
             dep w' = dep w.
Proof.
  intros w'. unfold reportProgress.
  unfold bind at 1. simpl.
  destruct (deadlineExceeded (dep w)) eqn:Hdl.
  - destruct (scanConditions_deadline (dep w) w Hdl) as (w1 & H1).
    rewrite (run_bind_Return _ _ _ _ _ H1). discriminate.
  - rewrite (run_bind_Next _ _ w w tt (scanConditions_passes (dep w) w Hdl)).
    unfold when, bind, record, setOld, startHealthcheckTimeout, ret, index, panic.
    destruct (negb (oldUpdatedReplicas w =? _)); simpl;
      destruct (negb (healthcheckTimeout w) && _); simpl;
      try (destruct (_ || _); simpl; [discriminate|];
           destruct (nth_error _ _); simpl; [|discriminate];
           destruct (checkPodStatus _ _ _ _); simpl);
      destruct (negb (oldReadyUnits w =? _) && _); simpl;
      destruct (negb (oldPendingTermination w =? _) && _); simpl;
      intros [= <-]; reflexivity.
Qed.

(** An iteration, by the way its first part ends. *)
Lemma iteration_unfold (t : Tick) (w : Watch) :
  iteration I r a namespace processName gvkGroup specReplicas t w
  = match reportProgress r a processName specReplicas t w with
    | (Next _, w1) =>
        if rolloutComplete specReplicas (appsv1.Status (dep w1))
        then (Next Break, w1)
        else bind (selectCase I a namespace processName gvkGroup t)
                  (fun _ => bind (refetch a namespace processName t)
                                 (fun _ => ret Continue)) w1
    | (Return v, w1) => (Return v, w1)
    | (Panic msg, w1) => (Panic msg, w1)
    end.
Proof.
  unfold iteration. unfold bind at 1.
  destruct (reportProgress r a processName specReplicas t w) as [[[]|v|msg] w1];
    try reflexivity.
  unfold bind at 1. simpl.
  destruct (rolloutComplete _ _); reflexivity.
Qed.


(** After the first part of an iteration, the completion test decides. *)
Lemma iteration_after_progress (t : Tick) (w w1 : Watch) :
  reportProgress r a processName specReplicas t w = (Next tt, w1) ->
  iteration I r a namespace processName gvkGroup specReplicas t w
  = if rolloutComplete specReplicas (appsv1.Status (dep w))
    then (Next Break, w1)
    else bind (selectCase I a namespace processName gvkGroup t)
              (fun _ => bind (refetch a namespace processName t)
                             (fun _ => ret Continue)) w1.
Proof.
  intros Hp. unfold iteration.
  rewrite (run_bind_Next _ _ _ _ _ Hp).
  unfold bind at 1. simpl.
  rewrite (reportProgress_dep t w w1 Hp).
  destruct (rolloutComplete _ _); reflexivity.
Qed.

(** When the channel of the watch is closed, the [select] is left and
    nothing else happens. *)
Lemma selectCase_closed (t : Tick) (w : Watch) :
  ready t = WatchCh None ->
  selectCase I a namespace processName gvkGroup t w = (Next tt, w).
Proof. intros Hr. unfold selectCase. unfold bind, get. rewrite Hr. reflexivity. Qed.


Lemma refetch_Ok (t : Tick) (w : Watch) (d : appsv1.Deployment) :
  GetDeployment (cluster t) namespace (appsv1.Name (dep w)) = Ok d ->
  refetch a namespace processName t w = setDep d w.
Proof. intros Hg. unfold refetch. unfold bind, get. rewrite Hg. reflexivity. Qed.

(** An iteration that finds the channel closed and the rollout not yet
    complete fetches the deployment again and goes round the loop. *)
Lemma iteration_closed (t : Tick) (w w1 : Watch) (d : appsv1.Deployment) :
  ready t = WatchCh None ->
  reportProgress r a processName specReplicas t w = (Next tt, w1) ->
  rolloutComplete specReplicas (appsv1.Status (dep w)) = false ->
  GetDeployment (cluster t) namespace (appsv1.Name (dep w)) = Ok d ->
  exists w2,
    iteration I r a namespace processName gvkGroup specReplicas t w = (Next Continue, w2)
    /\ dep w2 = d /\ wlog w2 = wlog w1.
Proof.
  intros Hr Hp Hc Hg.
  rewrite (iteration_after_progress t w w1 Hp), Hc.
  rewrite (run_bind_Next _ _ _ _ _ (selectCase_closed t w1 Hr)).
  assert (Hd : dep w1 = dep w) by exact (reportProgress_dep t w w1 Hp).
  unfold bind. rewrite refetch_Ok with (d := d) by (rewrite Hd; exact Hg).
  simpl. eexists. split; [reflexivity|]. split; reflexivity.
Qed.



(** While the channel stays closed and the deployment fetched is the same
    incomplete one, the loop goes on waiting. *)
Lemma eventLoop_closed_waits (d : appsv1.Deployment) (ticks : list Tick) :
  ketchv1.Deployments (ketchv1.Spec a) <> [] ->
  deadlineExceeded d = false ->
  rolloutComplete specReplicas (appsv1.Status d) = false ->
  Forall (fun t => ready t = WatchCh None
                   /\ GetDeployment (cluster t) namespace (appsv1.Name d) = Ok d) ticks ->
  forall w, dep w = d ->
    exists w', eventLoop I r a namespace processName gvkGroup specReplicas ticks w
               = (Return Waiting, w').
Proof.
  intros Hds Hdl Hc Hticks.
  induction Hticks as [|t rest [Hr Hg] _ IH]; intros w Hw; simpl.
  - eexists. reflexivity.
  - subst d.
    destruct (reportProgress_passes t w Hds Hdl) as (w1 & Hp & _).
    destruct (iteration_closed t w w1 (dep w) Hr Hp Hc Hg) as (w2 & Hi & Hd2 & _).
    rewrite (run_bind_Next _ _ _ _ _ Hi).
    apply IH. exact Hd2.
Qed.

End WatcherSteps.

(** A watcher whose channel is closed from the start, on a deployment that
    stays incomplete, has not exited after any number of iterations. *)
Lemma watchFunc_closed_waits (I : Imports) (r : AppReconciler) (a : ketchv1.App)
    (namespace processName gvkGroup : string) (d : appsv1.Deployment)
    (ticks : list Tick) :
  ketchv1.Deployments (ketchv1.Spec a) <> [] ->
  deadlineExceeded d = false ->
  rolloutComplete (specReplicasOf d) (appsv1.Status d) = false ->
  Forall (fun t => ready t = WatchCh None
                   /\ GetDeployment (cluster t) namespace (appsv1.Name d) = Ok d) ticks ->
  fst (watchFunc I r a namespace processName gvkGroup d ticks) = Returned Waiting.
Proof.
  intros Hds Hdl Hc Hticks.
  destruct (eventLoop_closed_waits I r a namespace processName gvkGroup
              (specReplicasOf d) d ticks Hds Hdl Hc Hticks (watchStart d) eq_refl)
    as (w' & Hloop).
  unfold watchFunc, watchRun, run, watchBody.
  rewrite (run_bind_Return _ _ _ _ _ Hloop). reflexivity.
Qed.

(** ** Runs of the watcher *)

Example watch_complete :
  fst (exampleWatch (workload 3 3 3 0) [tick emptyCluster PollTick])
  = Returned (Exited None).
Proof. reflexivity. Qed.

Example watch_unavailable_unit :
  fst (exampleWatch (workload 3 3 3 1)
         [tick (withDeployment emptyCluster (workload 3 3 3 1)) PollTick])
  = Returned Waiting.
Proof. reflexivity. Qed.

Example watch_fetch_error :
  fst (exampleWatch (workload 3 3 3 1) [tick emptyCluster PollTick])
  = Returned (Exited (Some notFound)).
Proof. reflexivity. Qed.

Example watch_cancelled :
  exampleWatch (workload 3 3 3 1)
    [tick emptyCluster (CtxDone (errors_New "context canceled"))]
  = (Returned (Exited (Some (errors_New "context canceled"))),
     [ AnnotatedEventf (sampleApp [webDeployment 1] ketchv1.CanarySpec_zero)
         (newAppDeploymentEvent (sampleApp [webDeployment 1] ketchv1.CanarySpec_zero)
            ketchv1.AppReconcileUpdate "3 of 3 new units created" "web")
         v1.EventTypeNormal ketchv1.AppReconcileUpdate;
       AnnotatedEventf (sampleApp [webDeployment 1] ketchv1.CanarySpec_zero)
         (newAppDeploymentEvent (sampleApp [webDeployment 1] ketchv1.CanarySpec_zero)
            ketchv1.AppReconcileUpdate "waiting healthcheck on 3 created units" "web")
         v1.EventTypeNormal ketchv1.AppReconcileUpdate;
       AnnotatedEventf (sampleApp [webDeployment 1] ketchv1.CanarySpec_zero)
         (newAppDeploymentEvent (sampleApp [webDeployment 1] ketchv1.CanarySpec_zero)
            ketchv1.AppReconcileUpdate "2 of 3 new units ready" "web")
         v1.EventTypeNormal ketchv1.AppReconcileUpdate;
       RegistryCleanup ]).
Proof. reflexivity. Qed.

Example watch_overall_timeout :
  fst (exampleWatch (workload 3 3 3 1) [tick emptyCluster (OverallTimeout 600)])
  = Returned (Exited (Some (errors_New
      "timeout waiting full rollout after 600 waiting for units"))).
Proof. reflexivity. Qed.

Example watch_healthcheck_timeout :
  fst (exampleWatch (workload 3 3 3 1) [tick emptyCluster (HealthcheckTimeout 120)])
  = Returned (Exited (Some (errors_New
      "timeout waiting healthcheck after 120 waiting for units"))).
Proof. reflexivity. Qed.

(** Before updated replicas reach the desired count the grace period of the
    health check has not started, and its channel cannot deliver. *)
Example watch_healthcheck_not_started :
  fst (exampleWatch (workload 3 3 2 0) [tick emptyCluster (HealthcheckTimeout 120)])
  = Returned NotEnabled.
Proof. reflexivity. Qed.

Example watch_closed_channel_then_complete :
  fst (exampleWatch (workload 3 3 3 1)
         [ tick (withDeployment emptyCluster (workload 3 3 3 0)) (WatchCh None);
           tick emptyCluster PollTick ])
  = Returned (Exited None).
Proof. reflexivity. Qed.




(** ** The inner pass *)

(** Unfolds the statements of a body that is applied to a state. *)
Ltac run_body :=
  cbv [bind orReturn check when getApp setApp emit emitAll return_ ret panic call run]
    in *;
  cbn [fst snd app log] in *.

(** Takes the cases of the innermost [match] of the goal. *)
Ltac case_body :=
  match goal with
  | |- context [match ?X with _ => _ end] =>
      lazymatch X with
      | context [match _ with _ => _ end] => fail
      | _ => destruct X eqn:?
      end
  | |- context [if ?X then _ else _] =>
      lazymatch X with
      | context [match _ with _ => _ end] => fail
      | context [if _ then _ else _] => fail
      | _ => destruct X eqn:?
      end
  end.

Lemma quotaReached_iff (fw : ketchv1.Framework) (name : string) :
  quotaReached fw name = true <->
  ketchv1.HasApp fw name = false
  /\ exists limit,
       ketchv1.AppQuotaLimit (ketchv1.fw_Spec fw) = Some limit
       /\ limit <> -1
       /\ limit < len (ketchv1.Apps (ketchv1.fw_Status fw)) + 1.
Proof.
  unfold quotaReached.
  destruct (ketchv1.HasApp fw name); simpl.
  - split; [discriminate | intros [H _]; discriminate].
  - destruct (ketchv1.AppQuotaLimit (ketchv1.fw_Spec fw)) as [limit|].
    + rewrite andb_true_iff, negb_true_iff, Z.leb_le, Z.eqb_neq.
      split.
      * intros [Hle Hne]. split; [reflexivity|]. exists limit.
        split; [reflexivity|]. split; [exact Hne | lia].
      * intros [_ (l & [= <-] & Hne & Hlt)]. split; [lia | exact Hne].
    + split; [discriminate | intros [_ (l & H & _)]; discriminate].
Qed.

(** The quota check is skipped for a member, without a limit, and with the
    limit -1. *)
Lemma quotaReached_skipped (fw : ketchv1.Framework) (name : string) :
  ketchv1.HasApp fw name = true
  \/ ketchv1.AppQuotaLimit (ketchv1.fw_Spec fw) = None
  \/ ketchv1.AppQuotaLimit (ketchv1.fw_Spec fw) = Some (-1) ->
  quotaReached fw name = false.
Proof.
  intros H. destruct (quotaReached fw name) eqn:Hq; [|reflexivity].
  apply quotaReached_iff in Hq as [Hm (limit & Hl & Hne & _)].
  destruct H as [H|[H|H]]; congruence.
Qed.

Section InnerPass.

Variable I : Imports.
Variable r : AppReconciler.

(** The resolution of the framework writes nothing. *)
Lemma resolveFramework_state (s : Pass) :
  snd (resolveFramework I r s) = s.
Proof.
  unfold resolveFramework. run_body.
  repeat (case_body; cbn [fst snd]); destruct s; reflexivity.
Qed.


(** The statements before the canary check leave the application as it is
    and write at most the patch of the members of the framework. *)
Lemma prepare_effects (s s1 : Pass) (c : control appReconcileResult Prepared) :
  prepare I r s = (c, s1) ->
  app s1 = app s
  /\ exists l, log s1 = log s ++ l /\ forallb isStatusPatch l = true.
Proof.
  unfold prepare. unfold bind at 1.
  pose proof (resolveFramework_state s) as Hs.
  destruct (resolveFramework I r s) as [[[[[fw ref] ns] tpls]|res|msg] s0];
    cbn [snd] in Hs; subst s0.
  - cbv [bind orReturn check when getApp setApp emit emitAll return_ ret].
    cbn [app log].
    repeat case_body; intros [= <- <-]; cbn [app log];
      (split; [reflexivity|]);
      first [ exists []; rewrite app_nil_r; split; reflexivity
            | eexists; split; reflexivity ].
  - intros [= <- <-]. split; [reflexivity|]. exists []. rewrite app_nil_r. auto.
  - intros [= <- <-]. split; [reflexivity|]. exists []. rewrite app_nil_r. auto.
Qed.

(** What [reconcile] does once the statements before the canary check have
    passed. *)
Lemma reconcile_prepared (s s1 : Pass) (p : Prepared) :
  prepare I r s = (Next p, s1) ->
  run (reconcile I r) s
  = run (bind (when (ketchv1.Active (ketchv1.Canary (ketchv1.Spec (app s))))
                 (canaryStep I r (p_namespace p)))
              (fun _ => applyChart I r p)) s1.
Proof.
  intros Hp. unfold reconcile, run.
  rewrite (run_bind_Next _ _ _ _ _ Hp).
  unfold bind at 1. unfold getApp at 1.
  destruct (prepare_effects s s1 _ Hp) as [Ha _].
  rewrite Ha. reflexivity.
Qed.

(** C5.  For an application whose canary is active and which has fewer than
    two deployments, in a pass that comes to the canary step: the pass
    returns the error "no canary deployment found", the canary of the
    application is the zero value afterwards, and the log of the pass holds
    nothing but the patch of the members of the framework, so no chart was
    applied and the canary was not advanced. *)
Theorem reconcile_no_canary_deployment (s s1 : Pass) (p : Prepared) :
  ketchv1.Active (ketchv1.Canary (ketchv1.Spec (app s))) = true ->
  len (ketchv1.Deployments (ketchv1.Spec (app s))) < 2 ->
  prepare I r s = (Next p, s1) ->
  run (reconcile I r) s
  = (Returned (failed (errors_New "no canary deployment found")),
     {| app := ketchv1.App_with_Canary (app s) ketchv1.CanarySpec_zero;
        log := log s1 |})
  /\ exists l, log s1 = log s ++ l /\ forallb isStatusPatch l = true.
Proof.
  intros Hactive Hlen Hp.
  destruct (prepare_effects s s1 _ Hp) as [Ha Hl].
  split; [|exact Hl].
  rewrite (reconcile_prepared s s1 p Hp), Hactive.
  unfold canaryStep. run_body. rewrite Ha.
  replace (len (ketchv1.Deployments (ketchv1.Spec (app s))) <=? 1) with true
    by (symmetry; apply Z.leb_le; lia).
  reflexivity.
Qed.

Lemma index_1 {S R A} (x y : A) (rest : list A) (s : S) :
  (index (x :: y :: rest) 1 : M S R A) s = (Next y, s).
Proof.
  unfold index.
  replace ((1 <? 0) || (Z.of_nat (length (x :: y :: rest)) <=? 1)) with false.
  - reflexivity.
  - symmetry. apply orb_false_iff. split; [reflexivity|].
    apply Z.leb_gt. simpl length. lia.
Qed.

(** The canary step when the pods of the canary deployment are not ready:
    before the timeout the pass returns and asks for a retry; after it the
    application is rolled back and updated. *)
Lemma canaryStep_not_ready (s : Pass) (namespace : v1.ObjectReference)
    (stable canary : ketchv1.AppDeploymentSpec) (rest : list ketchv1.AppDeploymentSpec)
    (e : error) (t : Time) :
  ketchv1.Deployments (ketchv1.Spec (app s)) = stable :: canary :: rest ->
  checkPodStatus (Group r) (Some (r_Client r)) (ketchv1.Name (app s))
    (ketchv1.Version canary) = Some e ->
  ketchv1.Started (ketchv1.Canary (ketchv1.Spec (app s))) = Some t ->
  canaryStep I r namespace s
  = if t + reconcileTimeout I <? Now r
    then
      let rolled := ketchv1.DoRollback (app s) in
      let s' := {| app := rolled; log := log s ++ [ClientUpdate rolled] |} in
      match Update (r_Client r) rolled with
      | Some e' => (Return (failed (Errorf_w "failed to update app crd: " e')), s')
      | None => advanceCanary I r namespace s'
      end
    else
      (Return {| framework := None; useTimeout := true;
                 err := Some (Errorf_w "canary update failed: " e) |}, s).
Proof.
  intros Hds Hcheck Hstarted.
  unfold canaryStep.
  unfold bind at 1. unfold getApp at 1.
  rewrite Hds.
  replace (len (stable :: canary :: rest) <=? 1) with false
    by (symmetry; apply Z.leb_gt; unfold len; simpl length; lia).
  unfold when at 1. unfold bind at 1. unfold ret at 1.
  unfold bind at 1. rewrite index_1.
  rewrite Hcheck, Hstarted.
  unfold timeoutExpired.
  destruct (t + reconcileTimeout I <? Now r).
  - cbv [bind ret when negb setApp emit check return_]. cbn [app log].
    destruct (Update (r_Client r) (ketchv1.DoRollback (app s))); reflexivity.
  - cbv [bind ret when negb return_]. destruct s; reflexivity.
Qed.

(** C4.  For an application whose canary is active, with a canary
    deployment whose health check fails, in a pass that comes to the canary
    step.  When the start of the canary is older than the timeout, the
    application is rolled back, that is without the canary deployment and
    with an inactive canary, and the update of the rolled back application
    is sent: when the update fails the pass returns its error, otherwise
    the pass goes on from the rolled back application.  When the timeout has
    not elapsed, the pass returns the error of the health check, asks for a
    retry, and has neither changed nor updated the application. *)
Theorem reconcile_canary_not_ready (s s1 : Pass) (p : Prepared)
    (stable canary : ketchv1.AppDeploymentSpec) (rest : list ketchv1.AppDeploymentSpec)
    (e : error) (t : Time) :
  ketchv1.Active (ketchv1.Canary (ketchv1.Spec (app s))) = true ->
  ketchv1.Deployments (ketchv1.Spec (app s)) = stable :: canary :: rest ->
  checkPodStatus (Group r) (Some (r_Client r)) (ketchv1.Name (app s))
    (ketchv1.Version canary) = Some e ->
  ketchv1.Started (ketchv1.Canary (ketchv1.Spec (app s))) = Some t ->
  prepare I r s = (Next p, s1) ->
  let rolled := ketchv1.DoRollback (app s) in
  let s' := {| app := rolled; log := log s1 ++ [ClientUpdate rolled] |} in
  (t + reconcileTimeout I < Now r ->
   ketchv1.Active (ketchv1.Canary (ketchv1.Spec rolled)) = false
   /\ ketchv1.Deployments (ketchv1.Spec rolled) = stable :: rest
   /\ run (reconcile I r) s
      = match Update (r_Client r) rolled with
        | Some e' =>
            (Returned (failed (Errorf_w "failed to update app crd: " e')), s')
        | None =>
            run (bind (advanceCanary I r (p_namespace p))
                      (fun _ => applyChart I r p)) s'
        end)
  /\ (Now r <= t + reconcileTimeout I ->
      run (reconcile I r) s
      = (Returned {| framework := None; useTimeout := true;
                     err := Some (Errorf_w "canary update failed: " e) |}, s1)
      /\ app s1 = app s
      /\ exists l, log s1 = log s ++ l /\ forallb isStatusPatch l = true).
Proof.
  intros Hactive Hds Hcheck Hstarted Hp rolled s'.
  destruct (prepare_effects s s1 _ Hp) as [Ha (l & Hl & Hpatch)].
  assert (Hstep := canaryStep_not_ready s1 (p_namespace p) stable canary rest e t).
  rewrite Ha in Hstep. specialize (Hstep Hds Hcheck Hstarted).
  rewrite (reconcile_prepared s s1 p Hp), Hactive.
  unfold when.
  split.
  - intros Hexp. apply Z.ltb_lt in Hexp. rewrite Hexp in Hstep.
    split; [reflexivity|].
    split; [unfold rolled, ketchv1.DoRollback; simpl; rewrite Hds; reflexivity|].
    unfold run, bind at 1. rewrite Hstep. cbv zeta.
    fold rolled. fold s'.
    destruct (Update (r_Client r) rolled); reflexivity.
  - intros Hnot. apply Z.ltb_ge in Hnot. rewrite Hnot in Hstep.
    split; [|split; [exact Ha|]].
    + unfold run, bind at 1. rewrite Hstep. reflexivity.
    + exists l. split; assumption.
Qed.

End InnerPass.

(** ** Passes over "sample" *)

(** With a quota of two and two members, the pass over a third application
    fails. *)
Example quota_third_application :
  fst (run (reconcile exampleImports
              (reconcilerOn (withFramework emptyCluster
                               (demoFramework (Some 2) ["one"; "two"]))))
           (passOn (sampleApp [webDeployment 1] ketchv1.CanarySpec_zero)))
  = Returned (failed (errors_New "you have reached the limit of apps")).
Proof. reflexivity. Qed.

(** The pass over a member does not fail on the quota, here with three
    members for a quota of two. *)
Example quota_member :
  fst (run (reconcile exampleImports
              (reconcilerOn
                 (withDeployment
                    (withFramework emptyCluster
                       (demoFramework (Some 2) ["one"; "two"; "sample"]))
                    (workload 3 3 3 0))))
           (passOn (sampleApp [webDeployment 1] ketchv1.CanarySpec_zero)))
  = Returned {| framework := Some {| v1.ref_Kind := "Framework"; v1.ref_Name := "demo";
                                     v1.ref_FieldPath := EmptyString |};
                useTimeout := true; err := None |}.
Proof. reflexivity. Qed.

(** With the limit -1 the quota is not checked. *)
Example quota_unlimited :
  quotaReached (demoFramework (Some (-1)) ["one"; "two"; "three"]) "sample" = false.
Proof. reflexivity. Qed.

Example framework_missing :
  fst (run (reconcile exampleImports (reconcilerOn emptyCluster))
           (passOn (sampleApp [webDeployment 1] ketchv1.CanarySpec_zero)))
  = Returned (failed (errors_New ("framework " ++ quoted "demo" ++ " is not found"))).
Proof. reflexivity. Qed.



(** The witness of C5: "sample" with an active canary and one deployment. *)
Lemma reconcile_no_canary_deployment_witness :
  let fw := demoFramework None ["sample"] in
  let r := reconcilerOn (withFramework emptyCluster fw) in
  let a := sampleApp [webDeployment 1] (activeCanary 0) in
  let s := passOn a in
  ketchv1.Active (ketchv1.Canary (ketchv1.Spec (app s))) = true
  /\ len (ketchv1.Deployments (ketchv1.Spec (app s))) < 2
  /\ prepare exampleImports r s = (Next (preparedFor a fw), s)
  /\ run (reconcile exampleImports r) s
     = (Returned (failed (errors_New "no canary deployment found")),
        {| app := ketchv1.App_with_Canary (app s) ketchv1.CanarySpec_zero;
           log := log s |})
  /\ exists l, log s = log s ++ l /\ forallb isStatusPatch l = true.
Proof.
  intros fw r a s.
  split; [reflexivity|].
  split; [reflexivity|].
  split; [reflexivity|].
  apply (reconcile_no_canary_deployment exampleImports r s s (preparedFor a fw));
    reflexivity.
Defined.

(** A canary that started at 0 with pending pods, seen after the timeout of
    ten minutes: the application is rolled back and the pass goes on to
    apply the chart. *)
Example canary_rollback :
  let fw := demoFramework None ["sample"] in
  let c := withDeployment
             (withPods (withFramework emptyCluster fw)
                [pod "sample-web-2-1" v1.PodPending v1.ConditionFalse])
             (workload 3 3 3 0) in
  let a := sampleApp [webDeployment 1; webDeployment 2] (activeCanary 0) in
  let out := run (reconcile exampleImports (reconcilerAt c 600000000001)) (passOn a) in
  err (match fst out with Returned res => res | Panicked _ => failed unavailable end) = None
  /\ ketchv1.Canary (ketchv1.Spec (app (snd out))) = ketchv1.CanarySpec_zero
  /\ ketchv1.Deployments (ketchv1.Spec (app (snd out))) = [webDeployment 1]
  /\ hd_error (log (snd out)) = Some (ClientUpdate (ketchv1.DoRollback a)).
Proof. repeat split. Qed.

(** The same canary seen at the timeout: the pass asks for a retry. *)
Example canary_retry :
  let fw := demoFramework None ["sample"] in
  let c := withPods (withFramework emptyCluster fw)
             [pod "sample-web-2-1" v1.PodPending v1.ConditionFalse] in
  let a := sampleApp [webDeployment 1; webDeployment 2] (activeCanary 0) in
  run (reconcile exampleImports (reconcilerAt c 600000000000)) (passOn a)
  = (Returned {| framework := None; useTimeout := true;
                 err := Some (Errorf_w "canary update failed: "
                                (errors_New "all pods are not running")) |},
     passOn a).
Proof. reflexivity. Qed.

(** The witness of C4: the canary of "sample", started at 0, with a pending
    pod. *)
Lemma reconcile_canary_not_ready_witness :
  let fw := demoFramework None ["sample"] in
  let c := withPods (withFramework emptyCluster fw)
             [pod "sample-web-2-1" v1.PodPending v1.ConditionFalse] in
  let r := reconcilerAt c 600000000001 in
  let a := sampleApp [webDeployment 1; webDeployment 2] (activeCanary 0) in
  let s := passOn a in
  let p := preparedFor a fw in
  let e := errors_New "all pods are not running" in
  let rolled := ketchv1.DoRollback (app s) in
  let s' := {| app := rolled; log := log s ++ [ClientUpdate rolled] |} in
  ketchv1.Active (ketchv1.Canary (ketchv1.Spec (app s))) = true
  /\ ketchv1.Deployments (ketchv1.Spec (app s)) = webDeployment 1 :: webDeployment 2 :: []
  /\ checkPodStatus (Group r) (Some (r_Client r)) (ketchv1.Name (app s))
       (ketchv1.Version (webDeployment 2)) = Some e
  /\ ketchv1.Started (ketchv1.Canary (ketchv1.Spec (app s))) = Some 0
  /\ prepare exampleImports r s = (Next p, s)
  /\ (0 + reconcileTimeout exampleImports < Now r ->
      ketchv1.Active (ketchv1.Canary (ketchv1.Spec rolled)) = false
      /\ ketchv1.Deployments (ketchv1.Spec rolled) = webDeployment 1 :: []
      /\ run (reconcile exampleImports r) s
         = match Update (r_Client r) rolled with
           | Some e' =>
               (Returned (failed (Errorf_w "failed to update app crd: " e')), s')
           | None =>
               run (bind (advanceCanary exampleImports r (p_namespace p))
                         (fun _ => applyChart exampleImports r p)) s'
           end)
  /\ (Now r <= 0 + reconcileTimeout exampleImports ->
      run (reconcile exampleImports r) s
      = (Returned {| framework := None; useTimeout := true;
                     err := Some (Errorf_w "canary update failed: " e) |}, s)
      /\ app s = app s
      /\ exists l, log s = log s ++ l /\ forallb isStatusPatch l = true).
Proof.
  intros fw c r a s p e rolled s'.
  split; [reflexivity|].
  split; [reflexivity|].
  split; [reflexivity|].
  split; [reflexivity|].
  split; [reflexivity|].
  apply (reconcile_canary_not_ready exampleImports r s s p
           (webDeployment 1) (webDeployment 2) [] e 0);
    reflexivity.
Defined.

(** ** The delete path *)

Section DeletePath.

Variable I : Imports.
Variable r : AppReconciler.


(** A failure of the uninstall of the chart leaves the delete path at once:
    the members of the framework are not patched and the finalizer stays. *)
Lemma deleteChart_uninstall_fails (s : Pass)
    (fw : ketchv1.Framework) (rest : list ketchv1.Framework) (h : Helm) (e : error) :
  ListFrameworks (r_Client r) = Ok (fw :: rest) ->
  ketchv1.HasApp fw (ketchv1.Name (app s)) = true ->
  uninstallHelmChart I (Group r) (ketchv1.Annotations (app s)) = true ->
  HelmFactoryFn r (ketchv1.NamespaceName (ketchv1.fw_Spec fw)) = Ok h ->
  DeleteChart h (ketchv1.Name (app s)) = Some e ->
  run (deleteChart I r) s
  = (Returned (Some e),
     {| app := app s; log := log s ++ [HelmDeleteChart (ketchv1.Name (app s))] |}).
Proof.
  intros Hlist Hhas Hun Hf Hd.
  unfold deleteChart, run. unfold bind at 1. rewrite Hlist. cbn [orReturn ret].
  unfold bind at 1. simpl deleteFromFramework.
  unfold bind at 1. unfold getApp at 1. rewrite Hhas. cbn [negb].
  rewrite Hun, Hf.
  cbv [bind orReturn check when emit return_ ret]. cbn [app log].
  rewrite Hd. reflexivity.
Qed.


End DeletePath.


Example deleteChart_succeeds :
  let c := withFramework emptyCluster (demoFramework None ["one"; "sample"]) in
  let a := deleted (sampleApp [webDeployment 1] ketchv1.CanarySpec_zero) 1 in
  run (deleteChart exampleImports (reconcilerOn c)) (passOn a)
  = (Returned None,
     {| app := RemoveFinalizer a ketchv1.KetchFinalizer;
        log := [ HelmDeleteChart "sample";
                 ClientStatusPatch (demoFramework None ["one"]);
                 ClientUpdate (RemoveFinalizer a ketchv1.KetchFinalizer) ] |}).
Proof. reflexivity. Qed.

(** ** Conflicts and the outcome of a pass *)

(** One turn of the loop of [isConflictError]. *)
Lemma conflictInChain_Unwrap (e : error) :
  conflictInChain e
  = if IsConflict e then true
    else match Unwrap e with
         | Some cause => conflictInChain cause
         | None => false
         end.
Proof. destruct e; reflexivity. Qed.

Lemma conflictInChain_IsConflict (e : error) :
  IsConflict e = true -> conflictInChain e = true.
Proof. intros H. destruct e; simpl in *; try discriminate. rewrite H. reflexivity. Qed.

(** [isConflictError] finds a conflict under any number of wrappings. *)
Lemma conflictInChain_wrapped (prefix : string) (e : error) :
  conflictInChain e = true -> conflictInChain (Errorf_w prefix e) = true.
Proof. intros H. simpl. exact H. Qed.

Example isConflictError_wrapped_twice :
  isConflictError
    (failed (Errorf_w "canary update failed: "
               (Errorf_w "failed to update app crd: " conflict))) = true.
Proof. reflexivity. Qed.

Section Outcome.

Variable I : Imports.
Variable r : AppReconciler.






End Outcome.

(** A conflict inside the inner pass, here on the patch of the members of
    the framework: nothing is recorded. *)
Example Reconcile_inner_conflict :
  let a := sampleApp [webDeployment 1] ketchv1.CanarySpec_zero in
  let c := withApp (withFramework emptyCluster (demoFramework None [])) a in
  let c' := {| GetApp := GetApp c; GetFramework := GetFramework c;
               ListFrameworks := ListFrameworks c; ListPods := ListPods c;
               ListHPAs := ListHPAs c; GetDeployment := GetDeployment c;
               ListEvents := ListEvents c; Update := Update c;
               StatusUpdate := StatusUpdate c;
               StatusPatch := fun _ => Some conflict |} in
  let out := run (Reconcile exampleImports (reconcilerOn c') "sample") (passOn App_zero) in
  fst out = Returned (Result_zero,
                      Some (Errorf_w "failed to update framework status: " conflict))
  /\ existsb isRecorderEvent (log (snd out)) = false
  /\ ketchv1.Conditions (ketchv1.Status (app (snd out))) = [].
Proof. repeat split. Qed.


(** The pass of the witness records one Warning outcome event and sets the
    condition. *)
Example Reconcile_quota_failure :
  let a := sampleApp [webDeployment 1] ketchv1.CanarySpec_zero in
  let c := withApp (withFramework emptyCluster (demoFramework (Some 2) ["one"; "two"])) a in
  let e := errors_New "you have reached the limit of apps" in
  let a' := ketchv1.SetCondition a ketchv1.Scheduled v1.ConditionFalse
              "you have reached the limit of apps" 0 in
  run (Reconcile exampleImports (reconcilerOn c) "sample") (passOn App_zero)
  = (Returned (Result_zero, Some e),
     {| app := a';
        log := [ outcomeEvent exampleImports a v1.EventTypeWarning (Some e);
                 ClientStatusUpdate a' ] |}).
Proof. reflexivity. Qed.


(** When the inner pass fails without a conflict and the update of the
    status fails without a conflict either, two Warning outcome events are
    recorded. *)
Example Reconcile_two_warnings :
  let a := sampleApp [webDeployment 1] ketchv1.CanarySpec_zero in
  let c := failingStatusUpdate
             (withApp (withFramework emptyCluster
                         (demoFramework (Some 2) ["one"; "two"])) a)
             unavailable in
  let out := run (Reconcile exampleImports (reconcilerOn c) "sample") (passOn App_zero) in
  fst out = Returned (Result_zero, Some unavailable)
  /\ length (filter isRecorderEvent (log (snd out))) = 2%nat.
Proof. repeat split. Qed.

(** * Further properties of the controller *)

(** ** The chain of an error *)

Lemma conflictInChain_iff (e : error) :
  conflictInChain e = true <-> exists e', In e' (chain e) /\ IsConflict e' = true.
Proof.
  induction e as [s|msg cause IH|reason msg].
  - simpl. split; [discriminate|].
    intros (e' & [<-|[]] & H). discriminate.
  - simpl. rewrite IH. split.
    + intros (e' & Hin & Hc). exists e'. auto.
    + intros (e' & [<-|Hin] & Hc); [discriminate|]. exists e'. auto.
  - destruct reason; simpl.
    + split; [intros _|reflexivity].
      eexists. split; [left; reflexivity|reflexivity].
    + split; [discriminate|]. intros (e' & [<-|[]] & H). discriminate.
    + split; [discriminate|]. intros (e' & [<-|[]] & H). discriminate.
Qed.

(** X1.  [isConflictError] is true exactly when the result has an error and
    some error of its chain, the error itself or one reached by unwrapping
    it any number of times, is a conflict of the cluster API. *)
Theorem isConflictError_iff (res : appReconcileResult) :
  isConflictError res = true <->
  exists e e', err res = Some e /\ In e' (chain e) /\ IsConflict e' = true.
Proof.
  unfold isConflictError. destruct (err res) as [e|].
  - rewrite conflictInChain_iff. split.
    + intros (e' & H). exists e, e'. auto.
    + intros (e0 & e' & [= <-] & H). exists e'. exact H.
  - split; [discriminate|]. intros (e & e' & H & _). discriminate.
Qed.

(** ** The targets of the autoscalers *)

Lemma existsb_eqb_In (k : string) (m : list string) :
  existsb (String.eqb k) m = true <-> In k m.
Proof.
  rewrite existsb_exists. split.
  - intros (x & Hin & Heq). apply String.eqb_eq in Heq. subst. exact Hin.
  - intros Hin. exists k. split; [exact Hin | apply String.eqb_refl].
Qed.

Lemma setTrue_In (m : list string) (k p : string) :
  In p (setTrue m k) <-> In p m \/ p = k.
Proof.
  unfold setTrue. destruct (existsb (String.eqb k) m) eqn:He.
  - apply existsb_eqb_In in He. split; [auto|]. intros [H| ->]; auto.
  - rewrite in_app_iff. simpl. intuition auto.
Qed.

Lemma setTrue_NoDup (m : list string) (k : string) :
  NoDup m -> NoDup (setTrue m k).
Proof.
  intros Hm. unfold setTrue. destruct (existsb (String.eqb k) m) eqn:He; [exact Hm|].
  assert (Hnot : ~ In k m).
  { intros Hin. apply existsb_eqb_In in Hin. congruence. }
  clear He. induction Hm as [|x l Hx Hl IH]; simpl.
  - constructor; [intros []|constructor].
  - constructor.
    + rewrite in_app_iff. simpl. intros [H|[H|[]]]; [auto|].
      apply Hnot. left. auto.
    + apply IH. intros H. apply Hnot. right. exact H.
Qed.

(** Membership in the result of a loop that adds keys to a map. *)
Lemma fold_left_In {A} (step : list string -> A -> list string)
    (P : A -> string -> Prop) :
  (forall m x p, In p (step m x) <-> In p m \/ P x p) ->
  forall xs m p,
    In p (fold_left step xs m) <-> In p m \/ exists x, In x xs /\ P x p.
Proof.
  intros Hstep xs. induction xs as [|x rest IH]; intros m p; simpl.
  - split; [auto|]. intros [H|(y & [] & _)]. exact H.
  - rewrite IH, Hstep. split.
    + intros [[H|H]|(y & Hin & Hy)].
      * left. exact H.
      * right. exists x. split; [left; reflexivity | exact H].
      * right. exists y. split; [right; exact Hin | exact Hy].
    + intros [H|(y & [Heq|Hin] & Hy)].
      * left. left. exact H.
      * subst y. left. right. exact Hy.
      * right. exists y. split; assumption.
Qed.

Section HpaTargets.

Variable a : ketchv1.App.
Variable hpaList : list v2beta1.HorizontalPodAutoscaler.

(** The loop over the processes of one deployment, as it is in
    [hpaTargetMap]. *)
Let processLoop (deployment : ketchv1.AppDeploymentSpec)
    (processes : list ketchv1.ProcessSpec) (hpaTargets : list string) : list string :=
  fold_left
    (fun hpaTargets process =>
       let deploymentName :=
         (ketchv1.Name a ++ "-" ++ ketchv1.ps_Name process ++ "-"
          ++ itoa (ketchv1.Version deployment))%string in
       match lookupTarget hpaList deploymentName with
       | Some details =>
           if String.eqb (v2beta1.Kind details) "Deployment"
              && String.eqb (v2beta1.APIVersion details) "apps/v1"
           then setTrue hpaTargets (ketchv1.ps_Name process)
           else hpaTargets
       | None => hpaTargets
       end)
    processes hpaTargets.

Lemma processLoop_In deployment processes hpaTargets (p : string) :
  In p (processLoop deployment processes hpaTargets) <->
  In p hpaTargets
  \/ exists process, In process processes
                     /\ (ketchv1.ps_Name process = p
                         /\ hpaTargeted a hpaList deployment process = true).
Proof.
  unfold processLoop.
  apply (fold_left_In _
           (fun process p => ketchv1.ps_Name process = p
                             /\ hpaTargeted a hpaList deployment process = true)).
  clear. intros m process p. unfold hpaTargeted. cbv zeta.
  destruct (lookupTarget hpaList _) as [details|].
  - destruct (String.eqb (v2beta1.Kind details) "Deployment"
              && String.eqb (v2beta1.APIVersion details) "apps/v1").
    + rewrite setTrue_In. split.
      * intros [H|H]; [left; exact H | right; split; [symmetry; exact H | reflexivity]].
      * intros [H|[H _]]; [left; exact H | right; symmetry; exact H].
    + split; [auto|]. intros [H|[_ H]]; [exact H | discriminate].
  - split; [auto|]. intros [H|[_ H]]; [exact H | discriminate].
Qed.

Lemma processLoop_NoDup deployment processes hpaTargets :
  NoDup hpaTargets -> NoDup (processLoop deployment processes hpaTargets).
Proof.
  unfold processLoop. revert hpaTargets.
  induction processes as [|process rest IH]; intros hpaTargets Hm; cbn [fold_left];
    [exact Hm|].
  apply IH. destruct (lookupTarget hpaList _) as [details|]; [|exact Hm].
  destruct (_ && _); [apply setTrue_NoDup|]; exact Hm.
Qed.

Lemma deploymentLoop_In (deployments : list ketchv1.AppDeploymentSpec)
    (hpaTargets : list string) (p : string) :
  In p (fold_left (fun m d => processLoop d (ketchv1.Processes d) m)
          deployments hpaTargets) <->
  In p hpaTargets
  \/ exists deployment,
       In deployment deployments
       /\ exists process,
            In process (ketchv1.Processes deployment)
            /\ (ketchv1.ps_Name process = p
                /\ hpaTargeted a hpaList deployment process = true).
Proof.
  apply (fold_left_In _
           (fun deployment p =>
              exists process,
                In process (ketchv1.Processes deployment)
                /\ (ketchv1.ps_Name process = p
                    /\ hpaTargeted a hpaList deployment process = true))).
  intros m d q. apply processLoop_In.
Qed.

Lemma deploymentLoop_NoDup (deployments : list ketchv1.AppDeploymentSpec)
    (hpaTargets : list string) :
  NoDup hpaTargets ->
  NoDup (fold_left (fun m d => processLoop d (ketchv1.Processes d) m)
           deployments hpaTargets).
Proof.
  revert hpaTargets.
  induction deployments as [|d rest IH]; intros hpaTargets Hm; simpl; [exact Hm|].
  apply IH, processLoop_NoDup, Hm.
Qed.

(** X2.  A process name is a key of the map of [hpaTargetMap] exactly when
    some process of that name, in some deployment of the application, has
    under the name "app-process-version" of its workload an entry of the
    autoscalers whose kind is Deployment and whose API version is apps/v1;
    and no key is there twice. *)
Theorem hpaTargetMap_In (p : string) :
  (In p (hpaTargetMap a hpaList) <->
   exists deployment process,
     In deployment (ketchv1.Deployments (ketchv1.Spec a))
     /\ In process (ketchv1.Processes deployment)
     /\ ketchv1.ps_Name process = p
     /\ hpaTargeted a hpaList deployment process = true)
  /\ NoDup (hpaTargetMap a hpaList).
Proof.
  split.
  - unfold hpaTargetMap.
    destruct (deploymentLoop_In (ketchv1.Deployments (ketchv1.Spec a)) [] p)
      as [Hto Hfrom].
    split.
    + intros H. destruct (Hto H) as [[]|(d & Hd & x & Hx & Hn & Ht)].
      exists d, x. auto.
    + intros (d & x & Hd & Hx & Hn & Ht). apply Hfrom. right.
      exists d. split; [exact Hd|]. exists x. auto.
  - apply (deploymentLoop_NoDup (ketchv1.Deployments (ketchv1.Spec a)) []).
    constructor.
Qed.

End HpaTargets.



(** ** How the inner pass ends *)

Section InnerPassEnds.

Variable I : Imports.
Variable r : AppReconciler.

Lemma failed_isFailure (e : error) : isFailure (failed e).
Proof. split; [discriminate | reflexivity]. Qed.

(** When the statements before the canary check pass, the framework of the
    application exists, has a reference and a namespace, its templates can
    be read, the quota leaves room and the chart can be built. *)
Lemma prepare_Next (s s1 : Pass) (p : Prepared) :
  prepare I r s = (Next p, s1) ->
  GetFramework (r_Client r) (ketchv1.spec_Framework (ketchv1.Spec (app s)))
  = Ok (p_framework p)
  /\ GetReference I (p_framework p) = Ok (p_ref p)
  /\ ketchv1.status_Namespace (ketchv1.fw_Status (p_framework p)) = Some (p_namespace p)
  /\ quotaReached (p_framework p) (ketchv1.Name (app s)) = false
  /\ (exists tpls,
        TemplateReader r (ketchv1.IngressType (ketchv1.fw_Spec (p_framework p))) = Ok tpls
        /\ chart_New I (app s) (p_framework p) tpls = None)
  /\ HelmFactoryFn r (v1.ref_Name (p_namespace p)) = Ok (p_helm p).
Proof.
  unfold prepare, resolveFramework.
  cbv [bind orReturn check when getApp setApp emit emitAll return_ ret].
  cbn [app log].
  repeat case_body; intros [= <- <-]; cbn [p_framework p_ref p_namespace p_helm];
    repeat split; try reflexivity; try assumption;
    eexists; split; eassumption.
Qed.

(** The statements before the canary check do not panic, and when they
    return, they return a failure. *)
Lemma prepare_ends (s s1 : Pass) (c : control appReconcileResult Prepared) :
  prepare I r s = (c, s1) ->
  match c with
  | Next _ => True
  | Return res => isFailure res
  | Panic _ => False
  end.
Proof.
  unfold prepare, resolveFramework.
  cbv [bind orReturn check when getApp setApp emit emitAll return_ ret].
  cbn [app log].
  repeat case_body; intros [= <- <-]; first [exact Logic.I | apply failed_isFailure].
Qed.

(** The end of the canary step does not panic, and when it returns, it
    returns a failure. *)
Lemma advanceCanary_ends (namespace : v1.ObjectReference) (s s1 : Pass)
    (c : control appReconcileResult unit) :
  advanceCanary I r namespace s = (c, s1) ->
  match c with
  | Next _ => True
  | Return res => isFailure res
  | Panic _ => False
  end.
Proof.
  unfold advanceCanary.
  cbv [bind orReturn check when getApp setApp emit emitAll return_ ret].
  cbn [app log].
  repeat case_body; intros [= <- <-]; first [exact Logic.I | apply failed_isFailure].
Qed.

(** The canary step: it returns only failures, and it panics exactly when
    the health check of the canary deployment fails and the canary has no
    start time. *)
Lemma canaryStep_ends (namespace : v1.ObjectReference) (s s1 : Pass)
    (c : control appReconcileResult unit) :
  canaryStep I r namespace s = (c, s1) ->
  match c with
  | Next _ => True
  | Return res => isFailure res
  | Panic _ =>
      exists stable canary rest e,
        ketchv1.Deployments (ketchv1.Spec (app s)) = stable :: canary :: rest
        /\ checkPodStatus (Group r) (Some (r_Client r)) (ketchv1.Name (app s))
             (ketchv1.Version canary) = Some e
        /\ ketchv1.Started (ketchv1.Canary (ketchv1.Spec (app s))) = None
  end.
Proof.
  unfold canaryStep. unfold bind at 1. unfold getApp at 1.
  destruct (ketchv1.Deployments (ketchv1.Spec (app s))) as [|stable [|canary rest]] eqn:Hds.
  - cbv [when bind setApp return_ len]. simpl. intros [= <- <-]. apply failed_isFailure.
  - cbv [when bind setApp return_ len]. simpl. intros [= <- <-]. apply failed_isFailure.
  - replace (len (stable :: canary :: rest) <=? 1) with false
      by (symmetry; apply Z.leb_gt; unfold len; simpl length; lia).
    unfold when at 1. unfold bind at 1. unfold ret at 1.
    unfold bind at 1. rewrite index_1.
    destruct (checkPodStatus (Group r) (Some (r_Client r)) (ketchv1.Name (app s))
                (ketchv1.Version canary)) as [e|] eqn:Hcheck.
    + destruct (ketchv1.Started (ketchv1.Canary (ketchv1.Spec (app s)))) as [t|] eqn:Hst.
      * unfold timeoutExpired.
        destruct (t + reconcileTimeout I <? Now r).
        -- cbv [bind ret when negb setApp emit check return_]. cbn [app log].
           destruct (Update (r_Client r) (ketchv1.DoRollback (app s))).
           ++ intros [= <- <-]. apply failed_isFailure.
           ++ intros H. apply advanceCanary_ends in H.
              destruct c; [exact Logic.I | exact H | destruct H].
        -- cbv [bind ret when negb return_]. intros [= <- <-].
           split; [discriminate | reflexivity].
      * cbv [timeoutExpired bind panic]. intros [= <- <-].
        exists stable, canary, rest, e. auto.
    + unfold bind at 1. unfold ret at 1.
      intros H. apply advanceCanary_ends in H.
      destruct c; [exact Logic.I | exact H | destruct H].
Qed.

(** The loop over the processes does not panic, and when it returns, it
    returns a failure. *)
Lemma watchProcesses_ends (fw : ketchv1.Framework)
    (latestDeployment : ketchv1.AppDeploymentSpec) (s s1 : Pass)
    (c : control appReconcileResult unit) :
  watchProcesses I r fw latestDeployment s = (c, s1) ->
  match c with
  | Next _ => True
  | Return res => isFailure res
  | Panic _ => False
  end.
Proof.
  unfold watchProcesses. revert s.
  induction (ketchv1.Processes latestDeployment) as [|process rest IH]; intros s; simpl.
  - intros [= <- <-]. exact Logic.I.
  - cbv [bind getApp orReturn emit check ret return_] in *. cbn [app log] in *.
    destruct (GetDeployment _ _ _) as [d|e].
    + destruct (watchDeployEvents I _ _ d process) as [e|].
      * intros [= <- <-]. apply failed_isFailure.
      * apply IH.
    + intros [= <- <-]. apply failed_isFailure.
Qed.

Lemma watchProcesses_log (fw : ketchv1.Framework)
    (latestDeployment : ketchv1.AppDeploymentSpec) (s s1 : Pass)
    (c : control appReconcileResult unit) :
  watchProcesses I r fw latestDeployment s = (c, s1) ->
  exists l, log s1 = log s ++ l.
Proof.
  unfold watchProcesses. revert s.
  induction (ketchv1.Processes latestDeployment) as [|process rest IH]; intros s; simpl.
  - intros [= <- <-]. exists []. rewrite app_nil_r. reflexivity.
  - cbv [bind getApp orReturn emit check ret return_] in *. cbn [app log] in *.
    destruct (GetDeployment _ _ _) as [d|e].
    + destruct (watchDeployEvents I _ _ d process) as [e|].
      * intros [= <- <-]. eexists. reflexivity.
      * intros H. apply IH in H. destruct H as (l & Hl). cbn [log] in Hl.
        rewrite <- app_assoc in Hl. eexists. exact Hl.
    + intros [= <- <-]. exists []. rewrite app_nil_r. reflexivity.
Qed.

(** The application of the chart always calls the chart applier first; it
    does not panic; it returns a failure, or a success that carries the
    reference of the framework. *)
Lemma applyChart_ends (p : Prepared) (s s1 : Pass)
    (c : control appReconcileResult appReconcileResult) :
  applyChart I r p s = (c, s1) ->
  (exists l, log s1 = log s ++ HelmUpdateChart (p_chart p) (app s) :: l)
  /\ match c with
     | Next _ => False
     | Return res =>
         isFailure res
         \/ (err res = None /\ framework res = Some (p_ref p)
             /\ UpdateChart (p_helm p) (p_chart p) (app s) = None)
     | Panic _ => False
     end.
Proof.
  unfold applyChart.
  unfold bind at 1. unfold getApp at 1.
  unfold bind at 1. unfold emit at 1.
  unfold bind at 1.
  destruct (UpdateChart (p_helm p) (p_chart p) (app s)) as [e|] eqn:Hu;
    cbn [check return_ ret].
  - intros [= <- <-]. cbn [log]. split; [exists []; reflexivity|].
    left. apply failed_isFailure.
  - cbn [app].
    destruct ((0 <? len (ketchv1.Deployments (ketchv1.Spec (app s))))
              && negb (ketchv1.Active (ketchv1.Canary (ketchv1.Spec (app s))))) eqn:Hc.
    + apply andb_true_iff in Hc as [Hlen _]. apply Z.ltb_lt in Hlen.
      assert (Hne : ketchv1.Deployments (ketchv1.Spec (app s)) <> []).
      { intros Heq. rewrite Heq in Hlen. unfold len in Hlen. simpl in Hlen. lia. }
      destruct (@index_last Pass appReconcileResult _ _ Hne) as (latest & Hlatest).
      unfold bind at 1. rewrite Hlatest.
      unfold bind at 1.
      destruct (watchProcesses I r (p_framework p) latest _) as [c1 s2] eqn:Hw.
      pose proof (watchProcesses_ends _ _ _ _ _ Hw) as Hends.
      assert (Hlog : exists l, log s2
                = log s ++ HelmUpdateChart (p_chart p) (app s) :: l).
      { destruct (watchProcesses_log _ _ _ _ _ Hw) as (l & Hl).
        exists l. rewrite Hl. cbn [log]. rewrite <- app_assoc. reflexivity. }
      destruct c1 as [[]|res|msg].
      * cbn [return_]. intros [= <- <-]. split; [exact Hlog|].
        right. repeat split; reflexivity.
      * intros [= <- <-]. split; [exact Hlog|]. left. exact Hends.
      * destruct Hends.
    + cbn [return_]. intros [= <- <-]. split; [exists []; reflexivity|].
      right. repeat split; reflexivity.
Qed.

End InnerPassEnds.

Section InnerPassResults.

Variable I : Imports.
Variable r : AppReconciler.

Lemma statusPatches_no_chart (l : list Effect) :
  forallb isStatusPatch l = true -> existsb isHelmUpdateChart l = false.
Proof.
  induction l as [|e l IH]; simpl; [reflexivity|].
  intros H. apply andb_true_iff in H as [He Hl].
  rewrite (IH Hl). destruct e; simpl in *; congruence.
Qed.

(** The inner pass, by the way its first statements end. *)
Lemma reconcile_unfold (s : Pass) :
  run (reconcile I r) s
  = match prepare I r s with
    | (Next p, s1) =>
        if ketchv1.Active (ketchv1.Canary (ketchv1.Spec (app s)))
        then match canaryStep I r (p_namespace p) s1 with
             | (Next _, s2) => run (applyChart I r p) s2
             | (Return res, s2) => (Returned res, s2)
             | (Panic msg, s2) => (Panicked msg, s2)
             end
        else run (applyChart I r p) s1
    | (Return res, s1) => (Returned res, s1)
    | (Panic msg, s1) => (Panicked msg, s1)
    end.
Proof.
  destruct (prepare I r s) as [[p|res|msg] s1] eqn:Hp.
  - rewrite (reconcile_prepared I r s s1 p Hp).
    destruct (ketchv1.Active (ketchv1.Canary (ketchv1.Spec (app s)))); cbn [when].
    + unfold run, bind.
      destruct (canaryStep I r (p_namespace p) s1) as [[[]|res|msg] s2]; reflexivity.
    + unfold run, bind, ret. reflexivity.
  - unfold reconcile, run, bind. rewrite Hp. reflexivity.
  - unfold reconcile, run, bind. rewrite Hp. reflexivity.
Qed.

(** X4.  The chart applier is called only for an application whose
    framework exists, is linked to a namespace and has room in its quota:
    when the log of a pass holds a call of [UpdateChart] that was not there
    before, the framework was fetched, has a namespace, and the quota check
    passed. *)
Theorem reconcile_applies_chart_only_if (s s' : Pass) (o : outcome appReconcileResult) :
  run (reconcile I r) s = (o, s') ->
  existsb isHelmUpdateChart (log s) = false ->
  existsb isHelmUpdateChart (log s') = true ->
  exists fw ns,
    GetFramework (r_Client r) (ketchv1.spec_Framework (ketchv1.Spec (app s))) = Ok fw
    /\ ketchv1.status_Namespace (ketchv1.fw_Status fw) = Some ns
    /\ quotaReached fw (ketchv1.Name (app s)) = false.
Proof.
  rewrite reconcile_unfold.
  destruct (prepare I r s) as [[p|res|msg] s1] eqn:Hp.
  - intros _ _ _.
    destruct (prepare_Next I r s s1 p Hp) as (Hfw & _ & Hns & Hq & _).
    exists (p_framework p), (p_namespace p). auto.
  - intros [= <- <-] Hbefore Hafter.
    destruct (prepare_effects I r s s1 _ Hp) as [_ (l & Hl & Hpatch)].
    rewrite Hl, existsb_app, Hbefore, (statusPatches_no_chart l Hpatch) in Hafter.
    discriminate.
  - destruct (prepare_ends I r s s1 _ Hp).
Qed.

(** X5.  A pass that returns is either a failure, with an error and without
    a reference of a framework, or a success: then the result carries the
    reference that [GetReference] gave for the framework of the
    application, and the chart applier was called and did not fail. *)
Theorem reconcile_result (s s' : Pass) (res : appReconcileResult) :
  run (reconcile I r) s = (Returned res, s') ->
  isFailure res
  \/ (err res = None
      /\ exists fw ref,
           GetFramework (r_Client r) (ketchv1.spec_Framework (ketchv1.Spec (app s))) = Ok fw
           /\ GetReference I fw = Ok ref
           /\ framework res = Some ref
           /\ existsb isHelmUpdateChart (log s') = true).
Proof.
  rewrite reconcile_unfold.
  destruct (prepare I r s) as [[p|res0|msg] s1] eqn:Hp.
  - destruct (prepare_Next I r s s1 p Hp) as (Hfw & Href & _).
    assert (Hchart : forall s2,
              run (applyChart I r p) s2 = (Returned res, s') ->
              isFailure res
              \/ (err res = None
                  /\ exists fw ref,
                       GetFramework (r_Client r)
                         (ketchv1.spec_Framework (ketchv1.Spec (app s))) = Ok fw
                       /\ GetReference I fw = Ok ref
                       /\ framework res = Some ref
                       /\ existsb isHelmUpdateChart (log s') = true)).
    { intros s2 Hrun. unfold run in Hrun.
      destruct (applyChart I r p s2) as [c s3] eqn:Ha.
      destruct (applyChart_ends I r p s2 s3 c Ha) as [(l & Hl) Hc].
      destruct c as [x|res1|msg]; [destruct Hc| |destruct Hc].
      inversion Hrun; subst.
      destruct Hc as [Hf|(He & Hr & _)]; [left; exact Hf|].
      right. split; [exact He|].
      exists (p_framework p), (p_ref p).
      repeat split; try assumption.
      rewrite Hl, existsb_app. simpl. apply orb_true_r. }
    destruct (ketchv1.Active (ketchv1.Canary (ketchv1.Spec (app s)))).
    + destruct (canaryStep I r (p_namespace p) s1) as [[[]|res1|msg] s2] eqn:Hc.
      * apply Hchart.
      * intros [= <- <-]. left. exact (canaryStep_ends I r _ _ _ _ Hc).
      * discriminate.
    + apply Hchart.
  - intros [= <- <-]. left. exact (prepare_ends I r s s1 _ Hp).
  - discriminate.
Qed.

(** X6.  The inner pass panics exactly when it comes to the canary step of
    an application with an active canary and a canary deployment, the health
    check of that deployment fails, and the canary has no start time: then
    [timeoutExpired] goes through a nil pointer.  No index of the pass is
    out of range. *)
Theorem reconcile_panics_iff (s : Pass) :
  (exists msg s', run (reconcile I r) s = (Panicked msg, s'))
  <-> exists p s1 stable canary rest e,
        prepare I r s = (Next p, s1)
        /\ ketchv1.Active (ketchv1.Canary (ketchv1.Spec (app s))) = true
        /\ ketchv1.Deployments (ketchv1.Spec (app s)) = stable :: canary :: rest
        /\ checkPodStatus (Group r) (Some (r_Client r)) (ketchv1.Name (app s))
             (ketchv1.Version canary) = Some e
        /\ ketchv1.Started (ketchv1.Canary (ketchv1.Spec (app s))) = None.
Proof.
  rewrite reconcile_unfold. split.
  - intros (msg & s' & Hrun).
    destruct (prepare I r s) as [[p|res0|msg0] s1] eqn:Hp.
    + destruct (prepare_effects I r s s1 _ Hp) as [Ha _].
      assert (Hchart : forall s2, run (applyChart I r p) s2 <> (Panicked msg, s')).
      { intros s2 H. unfold run in H.
        destruct (applyChart I r p s2) as [c s3] eqn:Hc.
        destruct (applyChart_ends I r p s2 s3 c Hc) as [_ Hends].
        destruct c; [destruct Hends | discriminate | destruct Hends]. }
      destruct (ketchv1.Active (ketchv1.Canary (ketchv1.Spec (app s)))) eqn:Hact.
      * destruct (canaryStep I r (p_namespace p) s1) as [[[]|res1|msg1] s2] eqn:Hc.
        -- exfalso. exact (Hchart s2 Hrun).
        -- discriminate.
        -- pose proof (canaryStep_ends I r _ _ _ _ Hc) as Hends. cbn in Hends.
           rewrite Ha in Hends.
           destruct Hends as (stable & canary & rest & e & Hds & Hcheck & Hst).
           exists p, s1, stable, canary, rest, e. auto.
      * exfalso. exact (Hchart s1 Hrun).
    + discriminate.
    + destruct (prepare_ends I r s s1 _ Hp).
  - intros (p & s1 & stable & canary & rest & e & Hp & Hact & Hds & Hcheck & Hst).
    destruct (prepare_effects I r s s1 _ Hp) as [Ha _].
    rewrite Hp, Hact.
    unfold canaryStep. unfold bind at 1. unfold getApp at 1. rewrite Ha, Hds.
    replace (len (stable :: canary :: rest) <=? 1) with false
      by (symmetry; apply Z.leb_gt; unfold len; simpl length; lia).
    unfold when at 1. unfold bind at 1. unfold ret at 1.
    unfold bind at 1. rewrite index_1.
    rewrite Hcheck, Hst.
    cbv [timeoutExpired bind panic]. eexists. eexists. reflexivity.
Qed.

End InnerPassResults.

(** A canary without a start time and with a pending pod: the pass panics. *)
Example reconcile_panics_without_start :
  let fw := demoFramework None ["sample"] in
  let c := withPods (withFramework emptyCluster fw)
             [pod "sample-web-2-1" v1.PodPending v1.ConditionFalse] in
  let a := sampleApp [webDeployment 1; webDeployment 2]
             {| ketchv1.Active := true; ketchv1.Started := None;
                ketchv1.StepTimeInteval := 5; ketchv1.CurrentStep := 1 |} in
  fst (run (reconcile exampleImports (reconcilerOn c)) (passOn a))
  = Panicked "invalid memory address or nil pointer dereference".
Proof. reflexivity. Qed.

(** ** Members of a framework *)

Lemma HasApp_In (fw : ketchv1.Framework) (name : string) :
  ketchv1.HasApp fw name = true <-> In name (ketchv1.Apps (ketchv1.fw_Status fw)).
Proof. unfold ketchv1.HasApp. apply existsb_eqb_In. Qed.

Lemma HasApp_false (fw : ketchv1.Framework) (name : string) :
  ketchv1.HasApp fw name = false <-> ~ In name (ketchv1.Apps (ketchv1.fw_Status fw)).
Proof.
  rewrite <- HasApp_In. destruct (ketchv1.HasApp fw name); split; congruence.
Qed.

(** The patch of the delete path removes the application and nothing else. *)
Lemma withoutMember_HasApp (fw : ketchv1.Framework) (name n : string) :
  ketchv1.HasApp (withoutMember fw name) n
  = ketchv1.HasApp fw n && negb (String.eqb n name).
Proof.
  apply eq_true_iff_eq.
  rewrite andb_true_iff, negb_true_iff, !HasApp_In, String.eqb_neq.
  unfold withoutMember. simpl. rewrite filter_In, negb_true_iff, String.eqb_neq.
  tauto.
Qed.

Section Membership.

Variable I : Imports.
Variable r : AppReconciler.

(** X7.  In a pass that comes to the canary check: a member of the
    framework is not patched in again, and nothing is written; for an
    application that is no member, the one write is the patch of the
    framework with the name of the application appended to its members, it
    succeeded, and the patched framework has the application once. *)
Theorem prepare_membership (s s1 : Pass) (p : Prepared) :
  prepare I r s = (Next p, s1) ->
  let fw := p_framework p in
  let name := ketchv1.Name (app s) in
  let patched := ketchv1.Framework_with_Apps fw
                   (ketchv1.Apps (ketchv1.fw_Status fw) ++ [name]) in
  if ketchv1.HasApp fw name
  then log s1 = log s
  else log s1 = log s ++ [ClientStatusPatch patched]
       /\ StatusPatch (r_Client r) patched = None
       /\ ketchv1.HasApp patched name = true
       /\ count_occ string_dec (ketchv1.Apps (ketchv1.fw_Status patched)) name = 1%nat.
Proof.
  intros Hp fw name patched.
  assert (Hcount : ketchv1.HasApp fw name = false ->
                   ketchv1.HasApp patched name = true
                   /\ count_occ string_dec (ketchv1.Apps (ketchv1.fw_Status patched)) name
                      = 1%nat).
  { intros Hno. split.
    - apply HasApp_In. unfold patched. simpl. apply in_or_app. right. left. reflexivity.
    - unfold patched. simpl. rewrite count_occ_app. simpl.
      destruct (string_dec name name) as [_|Hne]; [|congruence].
      apply HasApp_false in Hno.
      rewrite (proj1 (count_occ_not_In string_dec _ _) Hno). reflexivity. }
  revert Hp. subst fw name patched.
  unfold prepare, resolveFramework.
  cbv [bind orReturn check when getApp setApp emit emitAll return_ ret].
  cbn [app log].
  repeat case_body; intros [= <- <-]; cbn [p_framework] in *;
    repeat match goal with
           | H : negb ?b = _ |- _ => destruct b eqn:?; simpl in H; try discriminate
           end;
    cbn [log];
    try (rewrite app_nil_r; reflexivity); try reflexivity.
  all: split; [reflexivity|]; split; [assumption|]; apply Hcount; reflexivity.
Qed.

End Membership.

(** ** More on the delete path *)

Section DeletePathMore.

Variable I : Imports.
Variable r : AppReconciler.

(** The loop over the frameworks handles the first framework that has the
    application and no other. *)
Lemma deleteFromFramework_first (frameworks : list ketchv1.Framework) (s : Pass) :
  deleteFromFramework I r frameworks s
  = match find (fun fw => ketchv1.HasApp fw (ketchv1.Name (app s))) frameworks with
    | Some fw => deleteFromFramework I r [fw] s
    | None => (Next tt, s)
    end.
Proof.
  induction frameworks as [|fw rest IH]; [reflexivity|].
  cbn [find].
  destruct (ketchv1.HasApp fw (ketchv1.Name (app s))) eqn:Hhas.
  - cbv [deleteFromFramework bind getApp]. rewrite Hhas. reflexivity.
  - cbn [deleteFromFramework]. unfold bind at 1. unfold getApp at 1.
    rewrite Hhas. cbn [negb]. exact IH.
Qed.

(** What the loop does for the framework [fw] that has the application. *)
Lemma deleteFromFramework_owner (fw : ketchv1.Framework) (s s' : Pass)
    (c : control (option error) unit) :
  ketchv1.HasApp fw (ketchv1.Name (app s)) = true ->
  deleteFromFramework I r [fw] s = (c, s') ->
  app s' = app s
  /\ exists l,
       log s' = log s ++ l
       /\ (uninstallHelmChart I (Group r) (ketchv1.Annotations (app s)) = false ->
           existsb isHelmDeleteChart l = false)
       /\ forall patched, In (ClientStatusPatch patched) l ->
                          patched = withoutMember fw (ketchv1.Name (app s)).
Proof.
  intros Hhas. cbn [deleteFromFramework].
  unfold bind at 1. unfold getApp at 1. rewrite Hhas. cbn [negb].
  cbv [bind orReturn check when emit return_ ret]. cbn [app log].
  fold (withoutMember fw (ketchv1.Name (app s))).
  repeat case_body; intros [= <- <-]; cbn [app log];
    (split; [reflexivity|]);
    first [ exists []; rewrite app_nil_r; split; [reflexivity|]
          | rewrite <- app_assoc; eexists; split; [reflexivity|]
          | eexists; split; [reflexivity|] ];
    (split; [first [reflexivity | discriminate | intros; congruence]|]);
    intros patched Hin; simpl in Hin;
    repeat (destruct Hin as [Hin|Hin]; [inversion Hin; reflexivity|]);
    destruct Hin.
Qed.

(** X8.  Of the frameworks that the cluster lists, the delete path handles
    the first one that has the application, and only that one: whatever it
    writes to a framework is the patch of that framework without the
    application, which keeps every other member. *)
Theorem deleteChart_patches_first_owner (s s' : Pass) (o : outcome (option error))
    (frameworks : list ketchv1.Framework) (patched : ketchv1.Framework) :
  ListFrameworks (r_Client r) = Ok frameworks ->
  run (deleteChart I r) s = (o, s') ->
  log s = [] ->
  In (ClientStatusPatch patched) (log s') ->
  exists fw,
    find (fun fw => ketchv1.HasApp fw (ketchv1.Name (app s))) frameworks = Some fw
    /\ patched = withoutMember fw (ketchv1.Name (app s))
    /\ forall n, ketchv1.HasApp patched n
                 = ketchv1.HasApp fw n && negb (String.eqb n (ketchv1.Name (app s))).
Proof.
  intros Hlist Hrun Hlog Hin.
  unfold deleteChart, run in Hrun. unfold bind at 1 in Hrun.
  rewrite Hlist in Hrun. cbn [orReturn ret] in Hrun.
  unfold bind at 1 in Hrun.
  rewrite deleteFromFramework_first in Hrun.
  destruct (find (fun fw => ketchv1.HasApp fw (ketchv1.Name (app s))) frameworks)
    as [fw|] eqn:Hfind.
  - exists fw. split; [reflexivity|].
    apply find_some in Hfind as [_ Hhas].
    destruct (deleteFromFramework I r [fw] s) as [c s1] eqn:Hloop.
    destruct (deleteFromFramework_owner fw s s1 c Hhas Hloop)
      as (Ha & l & Hl & _ & Hpatch).
    assert (Hin' : In (ClientStatusPatch patched) l).
    { destruct c as [[]|v|msg].
      - revert Hrun. cbv [bind getApp setApp emit check return_ ret]. cbn [app log].
        destruct (Update _ _); intros [= <- <-]; cbn [log] in Hin;
          rewrite Hl, Hlog in Hin; simpl in Hin;
          apply in_app_or in Hin as [Hin|[Hin|[]]]; try exact Hin; discriminate.
      - inversion Hrun; subst. rewrite Hl, Hlog in Hin. exact Hin.
      - inversion Hrun; subst. rewrite Hl, Hlog in Hin. exact Hin. }
    rewrite (Hpatch patched Hin'). split; [reflexivity|].
    intros n. apply withoutMember_HasApp.
  - exfalso. revert Hrun.
    cbv [bind getApp setApp emit check return_ ret]. cbn [app log].
    destruct (Update _ _); intros [= <- <-]; cbn [log] in Hin;
      rewrite Hlog in Hin; simpl in Hin; destruct Hin as [Hin|[]]; discriminate.
Qed.

(** X9.  When the policy of the annotations says not to uninstall, the
    delete path never calls [DeleteChart], whatever the frameworks are. *)
Theorem deleteChart_keeps_chart (s s' : Pass) (o : outcome (option error)) :
  uninstallHelmChart I (Group r) (ketchv1.Annotations (app s)) = false ->
  run (deleteChart I r) s = (o, s') ->
  existsb isHelmDeleteChart (log s) = false ->
  existsb isHelmDeleteChart (log s') = false.
Proof.
  intros Hun Hrun Hlog.
  unfold deleteChart, run in Hrun. unfold bind at 1 in Hrun.
  destruct (ListFrameworks (r_Client r)) as [frameworks|e0];
    cbn [orReturn ret return_] in Hrun.
  - unfold bind at 1 in Hrun.
    rewrite deleteFromFramework_first in Hrun.
    destruct (find (fun fw => ketchv1.HasApp fw (ketchv1.Name (app s))) frameworks)
      as [fw|] eqn:Hfind.
    + apply find_some in Hfind as [_ Hhas].
      destruct (deleteFromFramework I r [fw] s) as [c s1] eqn:Hloop.
      destruct (deleteFromFramework_owner fw s s1 c Hhas Hloop)
        as (Ha & l & Hl & Hnochart & _).
      specialize (Hnochart Hun).
      destruct c as [[]|v|msg].
      * revert Hrun. cbv [bind getApp setApp emit check return_ ret]. cbn [app log].
        destruct (Update _ _); intros [= <- <-]; cbn [log];
          rewrite Hl, !existsb_app, Hlog, Hnochart; reflexivity.
      * inversion Hrun; subst. rewrite Hl, existsb_app, Hlog, Hnochart. reflexivity.
      * inversion Hrun; subst. rewrite Hl, existsb_app, Hlog, Hnochart. reflexivity.
    + revert Hrun. cbv [bind getApp setApp emit check return_ ret]. cbn [app log].
      destruct (Update _ _); intros [= <- <-]; cbn [log];
        rewrite existsb_app, Hlog; reflexivity.
  - inversion Hrun; subst. exact Hlog.
Qed.

(** X10.  When no framework of the list has the application, the delete
    path only removes the finalizer: its one effect is the update of the
    application without the finalizer, and it returns what that update
    returns.  So a second run, after the patch of the first, has no
    bookkeeping left to do. *)
Theorem deleteChart_without_owner (s : Pass) (frameworks : list ketchv1.Framework) :
  ListFrameworks (r_Client r) = Ok frameworks ->
  (forall fw, In fw frameworks -> ketchv1.HasApp fw (ketchv1.Name (app s)) = false) ->
  let final := RemoveFinalizer (app s) ketchv1.KetchFinalizer in
  run (deleteChart I r) s
  = (Returned (Update (r_Client r) final),
     {| app := final; log := log s ++ [ClientUpdate final] |}).
Proof.
  intros Hlist Hnone final.
  unfold deleteChart, run. unfold bind at 1. rewrite Hlist. cbn [orReturn ret].
  unfold bind at 1. rewrite deleteFromFramework_first.
  destruct (find (fun fw => ketchv1.HasApp fw (ketchv1.Name (app s))) frameworks)
    as [fw|] eqn:Hfind.
  - apply find_some in Hfind as [Hin Hhas]. rewrite (Hnone fw Hin) in Hhas. discriminate.
  - cbv [bind getApp setApp emit check return_ ret]. cbn [app log]. fold final.
    destruct (Update (r_Client r) final); reflexivity.
Qed.

End DeletePathMore.

(** ** The first statements of a pass *)

Section OuterPass.

Variable I : Imports.
Variable r : AppReconciler.

(** X11.  A pass stops before any reconciliation when the application
    cannot be fetched or the finalizer cannot be added.  When the fetch
    fails, nothing is written, and the pass returns nil for an application
    that is not found and the error of the fetch otherwise.  When the
    application lacks the finalizer and the update that adds it fails, that
    update is the only call on the cluster, and its error is returned. *)
Theorem Reconcile_stops_early (req : string) (s : Pass) :
  (forall e, GetApp (r_Client r) req = Err e ->
     run (Reconcile I r req) s
     = (Returned (Result_zero, if IsNotFound e then None else Some e), s))
  /\ (forall a e,
        GetApp (r_Client r) req = Ok a ->
        ContainsFinalizer a ketchv1.KetchFinalizer = false ->
        Update (r_Client r) (AddFinalizer a ketchv1.KetchFinalizer) = Some e ->
        run (Reconcile I r req) s
        = (Returned (Result_zero, Some e),
           {| app := AddFinalizer a ketchv1.KetchFinalizer;
              log := log s ++ [ClientUpdate (AddFinalizer a ketchv1.KetchFinalizer);
                               LoggerError e "failed to add ketch finalizer"] |})).
Proof.
  split.
  - intros e Hget. unfold Reconcile, run. unfold bind at 1. rewrite Hget.
    unfold orReturn, return_, IgnoreNotFound. destruct s. reflexivity.
  - intros a e Hget Hfin Hupd. unfold Reconcile, run.
    unfold bind at 1. rewrite Hget. cbn [orReturn ret].
    unfold bind at 1. unfold setApp at 1.
    rewrite Hfin. cbn [negb when].
    cbv [bind setApp emit return_ ret]. cbn [app log]. rewrite Hupd.
    cbn [app log]. rewrite <- app_assoc. reflexivity.
Qed.

(** The loop of the delete path writes only calls of the chart applier and
    patches of frameworks. *)
Lemma deleteFromFramework_kinds (frameworks : list ketchv1.Framework) (s s' : Pass)
    (c : control (option error) unit) :
  deleteFromFramework I r frameworks s = (c, s') ->
  exists l, log s' = log s ++ l /\ forallb isDeleteEffect l = true.
Proof.
  rewrite deleteFromFramework_first.
  destruct (find _ frameworks) as [fw|].
  - cbn [deleteFromFramework].
    cbv [bind getApp orReturn check when emit return_ ret]. cbn [app log].
    repeat case_body; intros [= <- <-]; cbn [log];
      first [ exists []; rewrite app_nil_r; split; reflexivity
            | rewrite <- app_assoc; eexists; split; reflexivity
            | eexists; split; reflexivity ].
  - intros [= <- <-]. exists []. rewrite app_nil_r. auto.
Qed.

Lemma deleteChart_kinds (s s' : Pass) (o : outcome (option error)) :
  run (deleteChart I r) s = (o, s') ->
  exists l, log s' = log s ++ l /\ forallb isDeleteEffect l = true.
Proof.
  unfold deleteChart, run. unfold bind at 1.
  destruct (ListFrameworks (r_Client r)) as [frameworks|e0]; cbn [orReturn ret return_].
  - unfold bind at 1.
    destruct (deleteFromFramework I r frameworks s) as [c s1] eqn:Hloop.
    destruct (deleteFromFramework_kinds frameworks s s1 c Hloop) as (l & Hl & Hk).
    destruct c as [[]|v|msg].
    + cbv [bind getApp setApp emit check return_ ret]. cbn [app log].
      destruct (Update _ _); intros [= <- <-]; cbn [log];
        exists (l ++ [ClientUpdate (RemoveFinalizer (app s1) ketchv1.KetchFinalizer)]);
        rewrite Hl, app_assoc, forallb_app, Hk; split; reflexivity.
    + intros [= <- <-]. exists l. auto.
    + intros [= <- <-]. exists l. auto.
  - intros [= <- <-]. exists []. rewrite app_nil_r. auto.
Qed.

(** X12.  A pass over an application that has the finalizer and is marked
    for deletion is the delete path and nothing more: it returns what
    [deleteChart] returns, and it writes only calls of [DeleteChart], patches
    of frameworks and updates of the application; no event is recorded, no
    chart is applied and the status is not updated. *)
Theorem Reconcile_deletes (req : string) (s : Pass) (a : ketchv1.App) (t : Time) :
  GetApp (r_Client r) req = Ok a ->
  ContainsFinalizer a ketchv1.KetchFinalizer = true ->
  ketchv1.DeletionTimestamp a = Some t ->
  run (Reconcile I r req) s
  = (match fst (run (deleteChart I r) {| app := a; log := log s |}) with
     | Returned e => Returned (Result_zero, e)
     | Panicked msg => Panicked msg
     end,
     snd (run (deleteChart I r) {| app := a; log := log s |}))
  /\ exists l,
       log (snd (run (Reconcile I r req) s)) = log s ++ l
       /\ forallb isDeleteEffect l = true.
Proof.
  intros Hget Hfin Hdel.
  assert (Heq : run (Reconcile I r req) s
                = (match fst (run (deleteChart I r) {| app := a; log := log s |}) with
                   | Returned e => Returned (Result_zero, e)
                   | Panicked msg => Panicked msg
                   end,
                   snd (run (deleteChart I r) {| app := a; log := log s |}))).
  { unfold Reconcile, run at 1.
    unfold bind at 1. rewrite Hget. cbn [orReturn ret].
    unfold bind at 1. unfold setApp at 1.
    rewrite Hfin. cbn [negb when].
    unfold bind at 1. unfold ret at 1.
    unfold bind at 1. unfold getApp at 1. cbn [app].
    rewrite Hdel. cbn [IsZero negb when].
    unfold bind at 1. unfold bind at 1. unfold call, run.
    destruct (deleteChart I r {| app := a; log := log s |}) as [[x|x|msg] s1];
      reflexivity. }
  split; [exact Heq|].
  rewrite Heq. cbn [snd].
  destruct (run (deleteChart I r) {| app := a; log := log s |}) as [o s1] eqn:Hrun.
  exact (deleteChart_kinds _ _ _ Hrun).
Qed.

End OuterPass.

(** ** More on the watcher *)

Section NoPanic.

Context {S R : Type}.

Lemma noPanic_ret {A} (x : A) : noPanic (ret x : M S R A).
Proof. intros s msg. discriminate. Qed.

Lemma noPanic_return {A} (v : R) : noPanic (return_ v : M S R A).
Proof. intros s msg. discriminate. Qed.

Lemma noPanic_get : noPanic (get : M S R S).
Proof. intros s msg. discriminate. Qed.

Lemma noPanic_bind {A B} (m : M S R A) (k : A -> M S R B) :
  noPanic m -> (forall x, noPanic (k x)) -> noPanic (bind m k).
Proof.
  intros Hm Hk s msg. unfold bind.
  specialize (Hm s). destruct (m s) as [[x|v|msg0] s1]; simpl in *.
  - apply Hk.
  - discriminate.
  - exfalso. exact (Hm msg0 eq_refl).
Qed.

Lemma noPanic_when (c : bool) (m : M S R unit) : noPanic m -> noPanic (when c m).
Proof. intros Hm. destruct c; [exact Hm | apply noPanic_ret]. Qed.

Lemma noPanic_forRange {A} (xs : list A) (body : A -> M S R unit) :
  (forall x, noPanic (body x)) -> noPanic (forRange xs body).
Proof.
  intros Hb. induction xs as [|x rest IH]; simpl.
  - apply noPanic_ret.
  - apply noPanic_bind; auto.
Qed.

Lemma noPanic_index_last {A} (xs : list A) :
  xs <> [] -> noPanic (index xs (len xs - 1) : M S R A).
Proof.
  intros Hne s msg. destruct (@index_last S R A xs Hne) as (x & Hx).
  rewrite Hx. discriminate.
Qed.

End NoPanic.

Lemma noPanic_record {R} (e : Effect) : noPanic (record e : M Watch R unit).
Proof. intros s msg. discriminate. Qed.

Lemma noPanic_setDep {R} d : noPanic (setDep d : M Watch R unit).
Proof. intros s msg. discriminate. Qed.

Lemma noPanic_setOld {R} u q p : noPanic (setOld u q p : M Watch R unit).
Proof. intros s msg. discriminate. Qed.

Lemma noPanic_startHealthcheckTimeout {R} :
  noPanic (startHealthcheckTimeout : M Watch R unit).
Proof. intros s msg. discriminate. Qed.

(** Goes through a body statement by statement. *)
Ltac no_panic_step :=
  match goal with
  | |- noPanic (bind _ _) => apply noPanic_bind; [|intros]
  | |- noPanic (record _) => apply noPanic_record
  | |- noPanic (return_ _) => apply noPanic_return
  | |- noPanic (ret _) => apply noPanic_ret
  | |- noPanic get => apply noPanic_get
  | |- noPanic (setDep _) => apply noPanic_setDep
  | |- noPanic (setOld _ _ _) => apply noPanic_setOld
  | |- noPanic startHealthcheckTimeout => apply noPanic_startHealthcheckTimeout
  | |- noPanic (when _ _) => apply noPanic_when
  | |- noPanic (forRange _ _) => apply noPanic_forRange; intros
  | |- noPanic (match ?x with _ => _ end) => destruct x
  | |- noPanic (if ?x then _ else _) => destruct x
  end.

Section WatcherMore.

#[local] Arguments checkPodStatus : simpl never.

Variable I : Imports.
Variable r : AppReconciler.
Variable a : ketchv1.App.
Variables namespace processName gvkGroup : string.
Variable specReplicas : Z.

(** The guard of [isDeploymentEvent] makes the conversion of the event
    safe: what it lets through is converted to an event, never to nil. *)
Lemma isDeploymentEvent_converts (msg : WatchEvent) (d : appsv1.Deployment) :
  isDeploymentEvent msg d = true ->
  exists ev, appDeploymentEventFromWatchEvent msg a processName = Some ev.
Proof.
  unfold isDeploymentEvent, appDeploymentEventFromWatchEvent.
  destruct (we_Object msg); [intros _; eexists; reflexivity | discriminate].
Qed.

Lemma noPanic_selectCase (t : Tick) :
  noPanic (selectCase I a namespace processName gvkGroup t).
Proof.
  unfold selectCase. apply noPanic_bind; [apply noPanic_get|]. intros w.
  destruct (ready t) as [|[msg|]|since|since|e].
  - apply noPanic_ret.
  - destruct (isDeploymentEvent msg (dep w)) eqn:Hd; [|apply noPanic_ret].
    destruct (isDeploymentEvent_converts msg (dep w) Hd) as (ev & Hev).
    cbn [when]. rewrite Hev. apply noPanic_record.
  - apply noPanic_ret.
  - repeat no_panic_step.
  - repeat no_panic_step.
  - apply noPanic_return.
Qed.

Lemma noPanic_reportProgress (t : Tick) :
  ketchv1.Deployments (ketchv1.Spec a) <> [] ->
  noPanic (reportProgress r a processName specReplicas t).
Proof.
  intros Hds. unfold reportProgress, scanConditions.
  repeat (no_panic_step || (apply noPanic_index_last; exact Hds)).
Qed.

Lemma noPanic_iteration (t : Tick) :
  ketchv1.Deployments (ketchv1.Spec a) <> [] ->
  noPanic (iteration I r a namespace processName gvkGroup specReplicas t).
Proof.
  intros Hds. unfold iteration, refetch.
  repeat (no_panic_step || (apply noPanic_reportProgress; exact Hds)
          || apply noPanic_selectCase).
Qed.

Lemma noPanic_eventLoop (ticks : list Tick) :
  ketchv1.Deployments (ketchv1.Spec a) <> [] ->
  noPanic (eventLoop I r a namespace processName gvkGroup specReplicas ticks).
Proof.
  intros Hds. induction ticks as [|t rest IH]; simpl.
  - apply noPanic_return.
  - apply noPanic_bind; [apply noPanic_iteration; exact Hds|].
    intros [|]; [apply noPanic_ret | exact IH].
Qed.

(** The first part of an iteration leaves for the next one the counts of
    the deployment that it has seen. *)
Lemma reportProgress_old (t : Tick) (w w1 : Watch) :
  reportProgress r a processName specReplicas t w = (Next tt, w1) ->
  let status := appsv1.Status (dep w) in
  oldUpdatedReplicas w1 = appsv1.UpdatedReplicas status
  /\ oldReadyUnits w1
     = sub32 (appsv1.UpdatedReplicas status) (appsv1.UnavailableReplicas status)
  /\ oldPendingTermination w1
     = sub32 (appsv1.Replicas status) (appsv1.UpdatedReplicas status)
  /\ (healthcheckTimeout w = true -> healthcheckTimeout w1 = true).
Proof.
  unfold reportProgress.
  unfold bind at 1. simpl.
  destruct (deadlineExceeded (dep w)) eqn:Hdl.
  - destruct (scanConditions_deadline a processName (dep w) w Hdl) as (w0 & H0).
    rewrite (run_bind_Return _ _ _ _ _ H0). discriminate.
  - rewrite (run_bind_Next _ _ w w tt (scanConditions_passes a processName (dep w) w Hdl)).
    unfold when, bind, record, setOld, startHealthcheckTimeout, ret, index, panic.
    destruct (negb (oldUpdatedReplicas w =? _)); simpl;
      destruct (negb (healthcheckTimeout w) && _); simpl;
      try (destruct (_ || _); simpl; [discriminate|];
           destruct (nth_error _ _); simpl; [|discriminate];
           destruct (checkPodStatus _ _ _ _); simpl);
      destruct (negb (oldReadyUnits w =? _) && _); simpl;
      destruct (negb (oldPendingTermination w =? _) && _); simpl;
      intros [= <-]; simpl; auto.
Qed.

(** The [select] and the fetch of the deployment keep the counts and the
    grace period. *)
Lemma selectCase_old (t : Tick) (w w1 : Watch) :
  selectCase I a namespace processName gvkGroup t w = (Next tt, w1) ->
  oldUpdatedReplicas w1 = oldUpdatedReplicas w
  /\ oldReadyUnits w1 = oldReadyUnits w
  /\ oldPendingTermination w1 = oldPendingTermination w
  /\ healthcheckTimeout w1 = healthcheckTimeout w.
Proof.
  unfold selectCase. cbv [bind get when record return_ ret panic].
  repeat case_body; intros [= <-]; simpl; auto.
Qed.

Lemma refetch_old (t : Tick) (w w1 : Watch) :
  refetch a namespace processName t w = (Next tt, w1) ->
  oldUpdatedReplicas w1 = oldUpdatedReplicas w
  /\ oldReadyUnits w1 = oldReadyUnits w
  /\ oldPendingTermination w1 = oldPendingTermination w
  /\ healthcheckTimeout w1 = healthcheckTimeout w.
Proof.
  unfold refetch. cbv [bind get when record return_ ret panic setDep].
  repeat case_body; intros [= <-]; simpl; auto.
Qed.

(** The first part of an iteration on a deployment whose counts are the ones
    of the iteration before records nothing and changes nothing, once the
    grace period of the health check has started or while the updated
    replicas are not the desired ones. *)
Lemma reportProgress_quiet (t : Tick) (w : Watch) :
  let status := appsv1.Status (dep w) in
  deadlineExceeded (dep w) = false ->
  oldUpdatedReplicas w = appsv1.UpdatedReplicas status ->
  oldReadyUnits w
  = sub32 (appsv1.UpdatedReplicas status) (appsv1.UnavailableReplicas status) ->
  oldPendingTermination w
  = sub32 (appsv1.Replicas status) (appsv1.UpdatedReplicas status) ->
  healthcheckTimeout w = true \/ appsv1.UpdatedReplicas status <> specReplicas ->
  reportProgress r a processName specReplicas t w = (Next tt, w).
Proof.
  intros status Hdl Hu Hr Hp Hh. unfold reportProgress.
  unfold bind at 1. simpl.
  rewrite (run_bind_Next _ _ w w tt (scanConditions_passes a processName (dep w) w Hdl)).
  fold status.
  rewrite Hu, Hr, Hp, !Z.eqb_refl. cbn [negb andb when].
  replace (negb (healthcheckTimeout w) && (appsv1.UpdatedReplicas status =? specReplicas))
    with false.
  - cbv [bind when ret setOld]. destruct w; simpl in *. subst. reflexivity.
  - symmetry. destruct Hh as [Hh|Hh].
    + rewrite Hh. reflexivity.
    + apply andb_false_iff. right. apply Z.eqb_neq. exact Hh.
Qed.

(** X14.  Polling an unchanged deployment records no progress twice: after
    an iteration that goes round the loop, when the deployment fetched has
    the status of the one before and no exceeded deadline, the first part
    of the next iteration records nothing and leaves the variables as they
    are, once the grace period of the health check has started or while the
    updated replicas are not the desired ones. *)
Theorem iteration_unchanged_quiet (t t' : Tick) (w w2 : Watch) :
  iteration I r a namespace processName gvkGroup specReplicas t w = (Next Continue, w2) ->
  appsv1.Status (dep w2) = appsv1.Status (dep w) ->
  deadlineExceeded (dep w2) = false ->
  healthcheckTimeout w2 = true
  \/ appsv1.UpdatedReplicas (appsv1.Status (dep w)) <> specReplicas ->
  reportProgress r a processName specReplicas t' w2 = (Next tt, w2).
Proof.
  intros Hit Hst Hdl Hh.
  rewrite iteration_unfold in Hit.
  destruct (reportProgress r a processName specReplicas t w) as [[[]|v|msg] w1] eqn:Hp;
    try discriminate.
  destruct (reportProgress_old t w w1 Hp) as (Hu & Hr & Hpt & _).
  destruct (rolloutComplete specReplicas (appsv1.Status (dep w1))); [discriminate|].
  unfold bind in Hit.
  destruct (selectCase I a namespace processName gvkGroup t w1) as [[[]|v|msg] w1'] eqn:Hs;
    try discriminate.
  destruct (selectCase_old t w1 w1' Hs) as (Hu1 & Hr1 & Hp1 & _).
  destruct (refetch a namespace processName t w1') as [[[]|v|msg] w1''] eqn:Hf;
    try discriminate.
  destruct (refetch_old t w1' w1'' Hf) as (Hu2 & Hr2 & Hp2 & _).
  inversion Hit; subst w1''.
  apply reportProgress_quiet.
  - exact Hdl.
  - rewrite Hst. congruence.
  - rewrite Hst. congruence.
  - rewrite Hst. congruence.
  - rewrite Hst. exact Hh.
Qed.

End WatcherMore.

(** X13.  A watcher of an application that has a deployment does not panic:
    the index of the latest deployment is in range, and an event of the
    cluster is converted only after [isDeploymentEvent] has let it through. *)
Theorem watchFunc_no_panic (I : Imports) (r : AppReconciler) (a : ketchv1.App)
    (namespace processName gvkGroup : string) (d : appsv1.Deployment)
    (ticks : list Tick) :
  ketchv1.Deployments (ketchv1.Spec a) <> [] ->
  forall msg, fst (watchFunc I r a namespace processName gvkGroup d ticks) <> Panicked msg.
Proof.
  intros Hds msg. unfold watchFunc, watchRun, run, watchBody.
  pose proof (noPanic_eventLoop I r a namespace processName gvkGroup
                (specReplicasOf d) ticks Hds (watchStart d)) as Hloop.
  unfold bind at 1.
  destruct (eventLoop I r a namespace processName gvkGroup (specReplicasOf d) ticks
              (watchStart d)) as [[[]|v|msg0] w1]; simpl in *.
  - discriminate.
  - destruct v as [e| |]; discriminate.
  - exfalso. exact (Hloop msg0 eq_refl).
Qed.

(** Without a deployment in the application, the watcher panics as soon as
    the updated replicas are the desired ones. *)
Example watchFunc_panics_without_deployment :
  fst (watchFunc exampleImports (reconcilerOn emptyCluster)
         (sampleApp [] ketchv1.CanarySpec_zero) "ketch-demo" "web" "theketch.io"
         (workload 3 3 3 1) [tick emptyCluster PollTick])
  = Panicked "index out of range".
Proof. reflexivity. Qed.

Section Deadline.

Variable I : Imports.
Variable r : AppReconciler.
Variable a : ketchv1.App.
Variables namespace processName gvkGroup : string.

(** The scan stops at a condition of an exceeded deadline with one Warning
    event and the error of the deadline. *)
Lemma scanConditions_deadline_event (d : appsv1.Deployment) (w : Watch) :
  deadlineExceeded d = true ->
  scanConditions a processName d w
  = (Return (Exited (Some (deadlineError d))),
     {| dep := dep w;
        oldUpdatedReplicas := oldUpdatedReplicas w;
        oldReadyUnits := oldReadyUnits w;
        oldPendingTermination := oldPendingTermination w;
        healthcheckTimeout := healthcheckTimeout w;
        wlog := wlog w
                ++ [AnnotatedEventf a
                      (newAppDeploymentEvent a ketchv1.AppReconcileError
                         (Error (deadlineError d)) processName)
                      v1.EventTypeWarning ketchv1.AppReconcileError] |}).
Proof.
  unfold deadlineExceeded, scanConditions.
  induction (appsv1.Conditions (appsv1.Status d)) as [|c rest IH]; simpl.
  - discriminate.
  - destruct (String.eqb (appsv1.dc_Type c) DeploymentProgressing
              && String.eqb (appsv1.dc_Reason c) deadlineExeceededProgressCond); simpl.
    + intros _. reflexivity.
    + intros H. unfold bind at 1. simpl. auto.
Qed.

(** X15.  An exceeded progress deadline comes first: a watcher that starts
    on a deployment with such a condition returns the error of the deadline
    in its first iteration, after one Warning event and before the deferred
    cleanup, whatever the counts of the deployment say, also when they
    say that the rollout is complete, and whatever the [select] would
    deliver. *)
Theorem watchFunc_deadline_first (d : appsv1.Deployment) (t : Tick) (rest : list Tick) :
  deadlineExceeded d = true ->
  watchFunc I r a namespace processName gvkGroup d (t :: rest)
  = (Returned (Exited (Some (deadlineError d))),
     [ AnnotatedEventf a
         (newAppDeploymentEvent a ketchv1.AppReconcileError
            (Error (deadlineError d)) processName)
         v1.EventTypeWarning ketchv1.AppReconcileError;
       RegistryCleanup ]).
Proof.
  intros Hdl.
  unfold watchFunc, watchRun, run, watchBody.
  cbn [eventLoop]. unfold iteration, reportProgress.
  unfold bind at 1. unfold bind at 1. unfold bind at 1. unfold bind at 1.
  unfold get at 1. unfold bind at 1.
  rewrite (scanConditions_deadline_event (dep (watchStart d)) (watchStart d) Hdl).
  reflexivity.
Qed.

End Deadline.

(** ** The error of a timeout *)

(** X16.  [createDeployTimeoutError] returns the error of the listing when
    the pods cannot be listed, so that the timeout itself is not reported
    then; and when no pod has a ready condition that is not True, in
    particular when the pods have no ready condition at all, the message is
    the one of the timeout alone, without any pod. *)
Theorem createDeployTimeoutError_edges (I : Imports) (cli : Client) (a : ketchv1.App)
    (timeout : Duration) (namespace group label : string) :
  (forall e,
     ListPods cli (podLabels group (ketchv1.Name a) (latestVersion a)) = Err e ->
     createDeployTimeoutError I cli a timeout namespace group label = e)
  /\ (forall pods,
        ListPods cli (podLabels group (ketchv1.Name a) (latestVersion a)) = Ok pods ->
        forallb (fun p => negb (notReady p)) pods = true ->
        createDeployTimeoutError I cli a timeout namespace group label
        = errors_New ("timeout waiting " ++ label ++ " after "
                      ++ Duration_String I timeout ++ " waiting for units")).
Proof.
  split.
  - intros e Hl. unfold createDeployTimeoutError. rewrite Hl. reflexivity.
  - intros pods Hl Hready. unfold createDeployTimeoutError. rewrite Hl.
    assert (Hnone : filter notReady pods = []).
    { clear Hl. induction pods as [|p rest IH]; [reflexivity|].
      simpl in *. apply andb_true_iff in Hready as [Hp Hrest].
      destruct (notReady p); [discriminate|]. apply IH, Hrest. }
    rewrite Hnone. cbn [map len length Z.of_nat Z.ltb Z.compare].
    simpl. f_equal.
Qed.

(** ** The start of a watcher *)

Section SetupProperties.

Variable a : ketchv1.App.

(** The waiting loop: when it is left with the generation observed, nothing
    has been recorded; when it returns an error, at most one event has been
    recorded and nothing else. *)
Lemma waitGeneration_ends (polls : list Poll) (st st' : Setup)
    (c : control setupExit unit) :
  s_log st = [] ->
  waitGeneration a polls st = (c, st') ->
  match c with
  | Next _ =>
      s_log st' = []
      /\ appsv1.Generation (s_dep st')
         <= appsv1.ObservedGeneration (appsv1.Status (s_dep st'))
  | Return (SetupReturned None) => False
  | Return (SetupReturned (Some _)) =>
      forallb isSetupEvent (s_log st') = true /\ (length (s_log st') <= 1)%nat
  | Return SetupWaiting => s_log st' = []
  | Panic _ => False
  end.
Proof.
  revert st. induction polls as [|p rest IH]; intros st Hlog.
  - cbn [waitGeneration]. cbv [bind get return_ ret].
    destruct (_ <? _) eqn:Hlt; intros [= <- <-].
    + exact Hlog.
    + split; [exact Hlog|]. apply Z.ltb_ge in Hlt. exact Hlt.
  - cbn [waitGeneration]. unfold bind at 1. unfold get at 1.
    destruct (_ <? _) eqn:Hlt.
    + destruct (poll_Get p) as [d|e].
      * unfold bind at 1. unfold setupDep at 1.
        destruct (poll_ready p) as [| |e].
        -- apply IH. exact Hlog.
        -- cbv [bind setupEmit return_]. intros [= <- <-]. cbn [s_log].
           rewrite Hlog. simpl. auto.
        -- cbv [return_]. intros [= <- <-]. cbn [s_log]. rewrite Hlog. simpl. auto.
      * cbv [bind setupEmit return_]. intros [= <- <-]. cbn [s_log].
        rewrite Hlog. simpl. auto.
    + cbv [ret]. intros [= <- <-]. split; [exact Hlog|]. apply Z.ltb_ge in Hlt. exact Hlt.
Qed.

(** X17.  [watchDeployEvents] registers and starts a watcher only when it
    returns nil, and then on a deployment whose generation is observed: its
    effects are then, in this order, the replacement of the previous watcher
    under the name of the deployment, the event that the units are updated,
    and the start of [watchFunc].  When it returns an error, it has recorded
    at most one event and has neither replaced a watcher nor started one.
    It does not panic. *)
Theorem watchDeployEvents_starts_iff (dep : appsv1.Deployment)
    (process : ketchv1.ProcessSpec) (newForConfig watch : option error)
    (polls : list Poll) :
  let (o, l) := watchDeployEventsRun a dep process newForConfig watch polls in
  match o with
  | Returned (SetupReturned None) =>
      exists d,
        l = [ ReplaceAndCancelPrevious (appsv1.Name d);
              startedEvent a process;
              GoWatchFunc d (ketchv1.ps_Name process) ]
        /\ appsv1.Generation d <= appsv1.ObservedGeneration (appsv1.Status d)
  | Returned (SetupReturned (Some _)) =>
      forallb isSetupEvent l = true /\ (length l <= 1)%nat
  | Returned SetupWaiting => l = []
  | Panicked _ => False
  end.
Proof.
  unfold watchDeployEventsRun, run.
  destruct newForConfig as [e|]; [cbv [bind check return_]; simpl; auto|].
  destruct watch as [e|]; [cbv [bind check return_]; simpl; auto|].
  unfold bind at 1. unfold check at 1. unfold ret at 1.
  unfold bind at 1. unfold check at 1. unfold ret at 1.
  unfold bind at 1.
  destruct (waitGeneration a polls {| s_dep := dep; s_log := [] |}) as [c st'] eqn:Hw.
  pose proof (waitGeneration_ends polls {| s_dep := dep; s_log := [] |} st' c
                eq_refl Hw) as Hends.
  destruct c as [[]|[[e|]|]|msg].
  - destruct Hends as [Hlog Hgen].
    cbv [bind get setupEmit return_]. cbn [s_dep s_log]. rewrite Hlog.
    exists (s_dep st'). split; [reflexivity | exact Hgen].
  - exact Hends.
  - destruct Hends.
  - exact Hends.
  - destruct Hends.
Qed.

(** X18.  When the generation of the deployment is already observed and the
    watch on the events opens, [watchDeployEvents] does not fetch the
    deployment: whatever the turns of the waiting loop would meet, it
    starts the watcher on the deployment that it was given. *)
Theorem watchDeployEvents_observed (dep : appsv1.Deployment)
    (process : ketchv1.ProcessSpec) (polls : list Poll) :
  appsv1.Generation dep <= appsv1.ObservedGeneration (appsv1.Status dep) ->
  watchDeployEventsRun a dep process None None polls
  = (Returned (SetupReturned None),
     [ ReplaceAndCancelPrevious (appsv1.Name dep);
       startedEvent a process;
       GoWatchFunc dep (ketchv1.ps_Name process) ]).
Proof.
  intros Hgen. unfold watchDeployEventsRun, run.
  assert (Hw : waitGeneration a polls {| s_dep := dep; s_log := [] |}
               = (Next tt, {| s_dep := dep; s_log := [] |})).
  { destruct polls as [|p rest]; cbn [waitGeneration]; cbv [bind get ret];
      cbn [s_dep];
      replace (appsv1.ObservedGeneration (appsv1.Status dep) <? appsv1.Generation dep)
        with false by (symmetry; apply Z.ltb_ge; exact Hgen);
      reflexivity. }
  unfold bind at 1. unfold check at 1. unfold ret at 1.
  unfold bind at 1. unfold check at 1. unfold ret at 1.
  unfold bind at 1. rewrite Hw. reflexivity.
Qed.

End SetupProperties.

(** The timeout of the waiting loop wins over a deployment that has just
    been fetched with its generation observed. *)
Example watchDeployEvents_timeout_after_fetch :
  let a := sampleApp [webDeployment 1] ketchv1.CanarySpec_zero in
  let d := workload 3 3 3 0 in
  watchDeployEventsRun a (atGeneration d 2 1)
    {| ketchv1.ps_Name := "web"; ketchv1.Units := Some 3 |} None None
    [ {| poll_Get := Ok (atGeneration d 2 2); poll_ready := WaitTimeout |} ]
  = (Returned (SetupReturned (Some (errors_New
       "timeout waiting for deployment generation to update"))),
     [ warningEvent a ketchv1.AppReconcileError
         "timeout waiting for deployment generation to update" ]).
Proof. reflexivity. Qed.

Example watchDeployEvents_after_one_poll :
  let a := sampleApp [webDeployment 1] ketchv1.CanarySpec_zero in
  let d := workload 3 3 3 0 in
  let web := {| ketchv1.ps_Name := "web"; ketchv1.Units := Some 3 |} in
  watchDeployEventsRun a (atGeneration d 2 1) web None None
    [ {| poll_Get := Ok (atGeneration d 2 2); poll_ready := WaitTick |} ]
  = (Returned (SetupReturned None),
     [ ReplaceAndCancelPrevious "sample-web-1";
       startedEvent a web;
       GoWatchFunc (atGeneration d 2 2) "web" ]).
Proof. reflexivity. Qed.

(** ** More on the health predicate *)

(** X19.  [checkPodStatus] reports success only for a call with a client, a
    non-empty application name and a positive version whose listing of the
    pods succeeds: an invalid call or a failed listing is never taken for
    healthy. *)
Theorem checkPodStatus_success_only (group : string) (c : option Client)
    (appName : string) (depVersion : ketchv1.DeploymentVersion) :
  checkPodStatus group c appName depVersion = None ->
  exists cl items,
    c = Some cl
    /\ appName <> EmptyString
    /\ 0 < depVersion
    /\ ListPods cl (podLabels group appName depVersion) = Ok items
    /\ checkPods items = None.
Proof.
  unfold checkPodStatus. destruct c as [cl|]; [|discriminate].
  destruct appName as [|ch appName]; [discriminate|]. simpl.
  destruct (depVersion <=? 0) eqn:Hv; [discriminate|].
  destruct (ListPods cl _) as [items|e] eqn:Hl; [|discriminate].
  intros Hc. exists cl, items.
  repeat split; try assumption; try discriminate.
  apply Z.leb_gt in Hv. exact Hv.
Qed.

(** X20.  The first pod of the list that is not running with all its
    conditions True decides the health of the deployment: the pods before
    it are passed over and the pods after it are not looked at. *)
Theorem checkPods_first_decides (before after : list v1.Pod) (p : v1.Pod) :
  forallb runningAndHealthy before = true ->
  runningAndHealthy p = false ->
  checkPods (before ++ p :: after) = checkPods [p].
Proof.
  intros Hb Hp. induction before as [|q before IH].
  - change ([] ++ p :: after) with (p :: after).
    rewrite !checkPods_cons, Hp. destruct (succeeded p); reflexivity.
  - change ((q :: before) ++ p :: after) with (q :: (before ++ p :: after)).
    simpl in Hb. apply andb_true_iff in Hb as [Hq Hb].
    rewrite checkPods_cons, Hq.
    assert (Hs : succeeded q = false).
    { unfold runningAndHealthy in Hq. apply andb_true_iff in Hq as [Hq _].
      apply String.eqb_eq in Hq. unfold succeeded. rewrite Hq. reflexivity. }
    rewrite Hs. exact (IH Hb).
Qed.

(** ** The events of a deployment *)

Lemma prefix_append (p s : string) :
  String.prefix p s = true <-> exists suffix, s = (p ++ suffix)%string.
Proof.
  revert s. induction p as [|ch p IH]; intros s.
  - split; [intros _; exists s; reflexivity|]. intros _. destruct s; reflexivity.
  - destruct s as [|ch' s]; simpl.
    + split; [discriminate|]. intros (suffix & H). discriminate.
    + destruct (Ascii.ascii_dec ch ch') as [->|Hne].
      * rewrite IH. split.
        -- intros (suffix & ->). exists suffix. reflexivity.
        -- intros (suffix & [= ->]). exists suffix. reflexivity.
      * split; [discriminate|]. intros (suffix & [= H _]). congruence.
Qed.

(** X21.  [isDeploymentEvent] takes an event of the cluster for an event of
    the deployment exactly when the object is an event whose name starts
    with the name of the deployment; so it also takes the events of another
    workload whose name goes on after that name. *)
Theorem isDeploymentEvent_iff (msg : WatchEvent) (d : appsv1.Deployment) :
  isDeploymentEvent msg d = true <->
  exists evt suffix,
    we_Object msg = Some evt
    /\ v1.ev_Name evt = (appsv1.Name d ++ suffix)%string.
Proof.
  unfold isDeploymentEvent. destruct (we_Object msg) as [evt|].
  - rewrite prefix_append. split.
    + intros (suffix & H). exists evt, suffix. auto.
    + intros (evt' & suffix & [= <-] & H). exists suffix. exact H.
  - split; [discriminate|]. intros (evt & suffix & H & _). discriminate.
Qed.

(** An event of the pod of "sample-web-10" is taken for an event of
    "sample-web-1". *)
Example isDeploymentEvent_longer_name :
  isDeploymentEvent
    {| we_Object :=
         Some {| v1.ev_Name := "sample-web-10-7d9c.17a2";
                 v1.ev_Reason := "Started";
                 v1.ev_Message := "Started container";
                 v1.InvolvedObject :=
                   {| v1.ref_Kind := "Pod"; v1.ref_Name := "sample-web-10-7d9c";
                      v1.ref_FieldPath := EmptyString |};
                 v1.Source := {| v1.Component := "kubelet"; v1.Host := "node-1" |} |} |}
    (workload 3 3 3 0) = true.
Proof. reflexivity. Qed.

(** * Instances of the further properties *)


Example hpaTargetMap_web :
  hpaTargetMap (sampleApp [webDeployment 1; webDeployment 2] ketchv1.CanarySpec_zero)
    [autoscaler "Deployment" "sample-web-2"; autoscaler "Deployment" "sample-web-1"]
  = ["web"].
Proof. reflexivity. Qed.

Lemma reconcile_applies_chart_only_if_witness :
  let c := withDeployment
             (withFramework emptyCluster (demoFramework (Some 2) ["one"; "sample"]))
             (workload 3 3 3 0) in
  let r := reconcilerOn c in
  let s := passOn (sampleApp [webDeployment 1] ketchv1.CanarySpec_zero) in
  let out := run (reconcile exampleImports r) s in
  run (reconcile exampleImports r) s = (fst out, snd out)
  /\ existsb isHelmUpdateChart (log s) = false
  /\ existsb isHelmUpdateChart (log (snd out)) = true
  /\ exists fw ns,
       GetFramework (r_Client r) (ketchv1.spec_Framework (ketchv1.Spec (app s))) = Ok fw
       /\ ketchv1.status_Namespace (ketchv1.fw_Status fw) = Some ns
       /\ quotaReached fw (ketchv1.Name (app s)) = false.
Proof.
  intros c r s out.
  split; [reflexivity|].
  split; [reflexivity|].
  split; [reflexivity|].
  apply (reconcile_applies_chart_only_if exampleImports r s (snd out) (fst out));
    reflexivity.
Defined.

Lemma reconcile_result_witness :
  let c := withDeployment
             (withFramework emptyCluster (demoFramework (Some 2) ["one"; "sample"]))
             (workload 3 3 3 0) in
  let r := reconcilerOn c in
  let s := passOn (sampleApp [webDeployment 1] ketchv1.CanarySpec_zero) in
  let res := {| framework := Some {| v1.ref_Kind := "Framework"; v1.ref_Name := "demo";
                                     v1.ref_FieldPath := EmptyString |};
                useTimeout := true; err := None |} in
  let s' := snd (run (reconcile exampleImports r) s) in
  run (reconcile exampleImports r) s = (Returned res, s')
  /\ (isFailure res
      \/ (err res = None
          /\ exists fw ref,
               GetFramework (r_Client r) (ketchv1.spec_Framework (ketchv1.Spec (app s)))
               = Ok fw
               /\ GetReference exampleImports fw = Ok ref
               /\ framework res = Some ref
               /\ existsb isHelmUpdateChart (log s') = true)).
Proof.
  intros c r s res s'.
  split; [reflexivity|].
  apply (reconcile_result exampleImports r s s' res). reflexivity.
Defined.

Lemma prepare_membership_witness :
  let fw := demoFramework None ["one"] in
  let r := reconcilerOn (withFramework emptyCluster fw) in
  let a := sampleApp [webDeployment 1] ketchv1.CanarySpec_zero in
  let s := passOn a in
  let patched := ketchv1.Framework_with_Apps fw ["one"; "sample"] in
  let s1 := {| app := a; log := [ClientStatusPatch patched] |} in
  prepare exampleImports r s = (Next (preparedFor a fw), s1)
  /\ (if ketchv1.HasApp fw "sample"
      then log s1 = log s
      else log s1 = log s ++ [ClientStatusPatch patched]
           /\ StatusPatch (r_Client r) patched = None
           /\ ketchv1.HasApp patched "sample" = true
           /\ count_occ string_dec (ketchv1.Apps (ketchv1.fw_Status patched)) "sample"
              = 1%nat).
Proof.
  intros fw r a s patched s1.
  split; [reflexivity|].
  apply (prepare_membership exampleImports r s s1 (preparedFor a fw)). reflexivity.
Defined.

Lemma deleteChart_patches_first_owner_witness :
  let first := demoFramework None ["one"] in
  let owner := demoFramework None ["sample"; "two"] in
  let other := demoFramework None ["sample"; "three"] in
  let c := withFramework (withFramework (withFramework emptyCluster first) owner) other in
  let r := reconcilerOn c in
  let s := passOn (deleted (sampleApp [webDeployment 1] ketchv1.CanarySpec_zero) 1) in
  let out := run (deleteChart exampleImports r) s in
  let patched := demoFramework None ["two"] in
  ListFrameworks (r_Client r) = Ok [first; owner; other]
  /\ run (deleteChart exampleImports r) s = (fst out, snd out)
  /\ log s = []
  /\ In (ClientStatusPatch patched) (log (snd out))
  /\ exists fw,
       find (fun fw => ketchv1.HasApp fw (ketchv1.Name (app s))) [first; owner; other]
       = Some fw
       /\ patched = withoutMember fw (ketchv1.Name (app s))
       /\ forall n, ketchv1.HasApp patched n
                    = ketchv1.HasApp fw n && negb (String.eqb n (ketchv1.Name (app s))).
Proof.
  intros first owner other c r s out patched.
  split; [reflexivity|].
  split; [reflexivity|].
  split; [reflexivity|].
  split; [right; left; reflexivity|].
  apply (deleteChart_patches_first_owner exampleImports r s (snd out) (fst out)
           [first; owner; other] patched);
    [reflexivity | reflexivity | reflexivity | right; left; reflexivity].
Defined.

Lemma deleteChart_keeps_chart_witness :
  let c := withFramework emptyCluster (demoFramework None ["sample"]) in
  let r := reconcilerWith c (failingUninstall unavailable) in
  let s := passOn (deleted (sampleApp [webDeployment 1] ketchv1.CanarySpec_zero) 1) in
  let out := run (deleteChart keepChartImports r) s in
  uninstallHelmChart keepChartImports (Group r) (ketchv1.Annotations (app s)) = false
  /\ run (deleteChart keepChartImports r) s = (fst out, snd out)
  /\ existsb isHelmDeleteChart (log s) = false
  /\ existsb isHelmDeleteChart (log (snd out)) = false.
Proof.
  intros c r s out.
  split; [reflexivity|].
  split; [reflexivity|].
  split; [reflexivity|].
  apply (deleteChart_keeps_chart keepChartImports r s (snd out) (fst out)); reflexivity.
Defined.

Lemma deleteChart_without_owner_witness :
  let fw := demoFramework None ["one"; "two"] in
  let r := reconcilerOn (withFramework emptyCluster fw) in
  let s := passOn (deleted (sampleApp [webDeployment 1] ketchv1.CanarySpec_zero) 1) in
  let final := RemoveFinalizer (app s) ketchv1.KetchFinalizer in
  ListFrameworks (r_Client r) = Ok [fw]
  /\ (forall f, In f [fw] -> ketchv1.HasApp f (ketchv1.Name (app s)) = false)
  /\ run (deleteChart exampleImports r) s
     = (Returned (Update (r_Client r) final),
        {| app := final; log := log s ++ [ClientUpdate final] |}).
Proof.
  intros fw r s final.
  split; [reflexivity|].
  split; [intros f [<-|[]]; reflexivity|].
  apply (deleteChart_without_owner exampleImports r s [fw]);
    [reflexivity | intros f [<-|[]]; reflexivity].
Defined.

Lemma Reconcile_deletes_witness :
  let a := deleted (sampleApp [webDeployment 1] ketchv1.CanarySpec_zero) 1 in
  let c := withApp (withFramework emptyCluster (demoFramework None ["sample"])) a in
  let r := reconcilerOn c in
  let I := exampleImports in
  let s := passOn App_zero in
  GetApp (r_Client r) "sample" = Ok a
  /\ ContainsFinalizer a ketchv1.KetchFinalizer = true
  /\ ketchv1.DeletionTimestamp a = Some 1
  /\ run (Reconcile I r "sample") s
     = (match fst (run (deleteChart I r) {| app := a; log := log s |}) with
        | Returned e => Returned (Result_zero, e)
        | Panicked msg => Panicked msg
        end,
        snd (run (deleteChart I r) {| app := a; log := log s |}))
  /\ exists l,
       log (snd (run (Reconcile I r "sample") s)) = log s ++ l
       /\ forallb isDeleteEffect l = true.
Proof.
  intros a c r I s.
  split; [reflexivity|].
  split; [reflexivity|].
  split; [reflexivity|].
  apply (Reconcile_deletes I r "sample" s a 1); reflexivity.
Defined.

Lemma watchFunc_no_panic_witness :
  let a := sampleApp [webDeployment 1] ketchv1.CanarySpec_zero in
  ketchv1.Deployments (ketchv1.Spec a) <> []
  /\ forall msg,
       fst (watchFunc exampleImports (reconcilerOn emptyCluster) a
              "ketch-demo" "web" "theketch.io" (workload 3 3 3 1)
              [tick emptyCluster PollTick]) <> Panicked msg.
Proof.
  intros a.
  split; [discriminate|].
  apply (watchFunc_no_panic exampleImports (reconcilerOn emptyCluster) a
           "ketch-demo" "web" "theketch.io" (workload 3 3 3 1)
           [tick emptyCluster PollTick]).
  discriminate.
Defined.

Lemma iteration_unchanged_quiet_witness :
  let a := sampleApp [webDeployment 1] ketchv1.CanarySpec_zero in
  let r := reconcilerOn emptyCluster in
  let d := workload 3 3 2 1 in
  let t := tick (withDeployment emptyCluster d) PollTick in
  let w := watchStart d in
  let w2 := snd (iteration exampleImports r a "ketch-demo" "web" "theketch.io" 3 t w) in
  iteration exampleImports r a "ketch-demo" "web" "theketch.io" 3 t w = (Next Continue, w2)
  /\ appsv1.Status (dep w2) = appsv1.Status (dep w)
  /\ deadlineExceeded (dep w2) = false
  /\ (healthcheckTimeout w2 = true
      \/ appsv1.UpdatedReplicas (appsv1.Status (dep w)) <> 3)
  /\ reportProgress r a "web" 3 t w2 = (Next tt, w2).
Proof.
  intros a r d t w w2.
  split; [reflexivity|].
  split; [reflexivity|].
  split; [reflexivity|].
  split; [right; discriminate|].
  apply (iteration_unchanged_quiet exampleImports r a "ketch-demo" "web" "theketch.io"
           3 t t w w2);
    [reflexivity | reflexivity | reflexivity | right; discriminate].
Defined.

Lemma watchFunc_deadline_first_witness :
  let a := sampleApp [webDeployment 1] ketchv1.CanarySpec_zero in
  let r := reconcilerOn emptyCluster in
  let d := pastDeadline (workload 3 3 3 0) in
  let t := tick emptyCluster PollTick in
  deadlineExceeded d = true
  /\ rolloutComplete (specReplicasOf d) (appsv1.Status d) = true
  /\ watchFunc exampleImports r a "ketch-demo" "web" "theketch.io" d [t]
     = (Returned (Exited (Some (deadlineError d))),
        [ AnnotatedEventf a
            (newAppDeploymentEvent a ketchv1.AppReconcileError
               (Error (deadlineError d)) "web")
            v1.EventTypeWarning ketchv1.AppReconcileError;
          RegistryCleanup ]).
Proof.
  intros a r d t.
  split; [reflexivity|].
  split; [reflexivity|].
  apply (watchFunc_deadline_first exampleImports r a "ketch-demo" "web" "theketch.io"
           d t []).
  reflexivity.
Defined.

Lemma watchDeployEvents_observed_witness :
  let a := sampleApp [webDeployment 1] ketchv1.CanarySpec_zero in
  let web := {| ketchv1.ps_Name := "web"; ketchv1.Units := Some 3 |} in
  let d := workload 3 3 3 0 in
  let polls := [ {| poll_Get := Err unavailable; poll_ready := WaitTimeout |} ] in
  appsv1.Generation d <= appsv1.ObservedGeneration (appsv1.Status d)
  /\ watchDeployEventsRun a d web None None polls
     = (Returned (SetupReturned None),
        [ ReplaceAndCancelPrevious (appsv1.Name d);
          startedEvent a web;
          GoWatchFunc d (ketchv1.ps_Name web) ]).
Proof.
  intros a web d polls.
  split; [simpl; lia|].
  apply (watchDeployEvents_observed a d web polls). simpl. lia.
Defined.

Lemma checkPodStatus_success_only_witness :
  let c := withPods emptyCluster [pod "job-1" v1.PodSucceeded v1.ConditionFalse] in
  checkPodStatus "theketch.io" (Some c) "sample" 1 = None
  /\ exists cl items,
       Some c = Some cl
       /\ "sample" <> EmptyString
       /\ 0 < 1
       /\ ListPods cl (podLabels "theketch.io" "sample" 1) = Ok items
       /\ checkPods items = None.
Proof.
  intros c.
  split; [reflexivity|].
  apply (checkPodStatus_success_only "theketch.io" (Some c) "sample" 1). reflexivity.
Defined.

Lemma checkPods_first_decides_witness :
  let before := [pod "web-1" v1.PodRunning v1.ConditionTrue] in
  let p := pod "web-2" v1.PodRunning v1.ConditionFalse in
  let after := [pod "job-1" v1.PodSucceeded v1.ConditionTrue] in
  forallb runningAndHealthy before = true
  /\ runningAndHealthy p = false
  /\ checkPods (before ++ p :: after) = checkPods [p].
Proof.
  intros before p after.
  split; [reflexivity|].
  split; [reflexivity|].
  apply (checkPods_first_decides before after p); reflexivity.
Defined.
